(** * httpbin-hono: the authentication routes

    A shallow embedding of [src/routes/authentication.ts]: the Digest header
    parser, the nonce generator, the hash chain, the challenge builder and the
    five route handlers, then the image routes that the file lists after
    them, followed by the properties of the specification and further
    properties of the same functions.

    Conventions of the embedding.
    - A JavaScript string is a [string]: a sequence of code units below 256,
      which is the range of an HTTP header value and of the output of [atob].
    - A [Record<string, string>] is a [gmap string string].
    - [undefined] is [None]; a handler that throws returns [Throw].
    - The bytes drawn by [crypto.getRandomValues] are an argument of the
      functions that draw them.
    - [async] functions are pure here: each [await] is a plain call. *)

From Stdlib Require Import ZArith List Bool Ascii String Lia.
From stdpp Require Import base option gmap strings.
Import ListNotations.

Local Open Scope string_scope.
Local Open Scope list_scope.
Local Open Scope Z_scope.

(** stdpp keeps [String.append] folded; the proofs below compute with it. *)
#[local] Arguments String.append !_ _ : simpl nomatch.

(** ** JavaScript strings *)

Module JS.

Definition code (c : ascii) : Z := Z.of_N (N_of_ascii c).
Definition chr (z : Z) : ascii := ascii_of_N (Z.to_N z).

(** [!s] for a string that may be [undefined]. *)
Definition falsy (o : option string) : bool :=
  match o with
  | None => true
  | Some s => String.eqb s ""
  end.

(** [a || b] on strings that may be [undefined]. *)
Definition or_else (a b : option string) : option string :=
  if falsy a then b else a.

(** [s.startsWith(p)] *)
Fixpoint startsWith (p s : string) : bool :=
  match p, s with
  | EmptyString, _ => true
  | String a p', String b s' => Ascii.eqb a b && startsWith p' s'
  | String _ _, EmptyString => false
  end.

(** [s.substring(n)] for a natural number [n]. *)
Fixpoint substring (n : nat) (s : string) : string :=
  match n, s with
  | O, _ => s
  | S n', String _ s' => substring n' s'
  | S _, EmptyString => EmptyString
  end.

(** [s.substring(0, n)] *)
Fixpoint take (n : nat) (s : string) : string :=
  match n, s with
  | S n', String c s' => String c (take n' s')
  | _, _ => EmptyString
  end.

(** [s.includes(p)] *)
Fixpoint includes (p s : string) : bool :=
  startsWith p s ||
  match s with
  | EmptyString => false
  | String _ s' => includes p s'
  end.

(** [s.split(sep)] for a separator of one code unit: never empty. *)
Fixpoint split (sep : ascii) (s : string) : list string :=
  match s with
  | EmptyString => [EmptyString]
  | String c s' =>
      if Ascii.eqb c sep then EmptyString :: split sep s'
      else match split sep s' with
           | x :: xs => String c x :: xs
           | [] => [String c EmptyString]
           end
  end.

(** [s.replace(/c/g, r)] for a pattern of one code unit. *)
Fixpoint replaceAll (c : ascii) (r : string) (s : string) : string :=
  match s with
  | EmptyString => EmptyString
  | String x s' =>
      if Ascii.eqb x c then r +:+ replaceAll c r s'
      else String x (replaceAll c r s')
  end.

(** [String.fromCharCode(...bytes)] *)
Definition fromCharCode (bs : list Z) : string :=
  string_of_list_ascii (map chr bs).

Definition charCodes (s : string) : list Z :=
  map code (list_ascii_of_string s).

(** [new TextEncoder().encode(s)]: UTF-8, one or two bytes for a code unit
    below 256. *)
Definition utf8_unit (c : ascii) : list Z :=
  let z := code c in
  if z <? 128 then [z]
  else [Z.lor 192 (Z.shiftr z 6); Z.lor 128 (Z.land z 63)].

Definition encode (s : string) : list Z :=
  flat_map utf8_unit (list_ascii_of_string s).

End JS.

(** ** SHA-2, as [crypto.subtle.digest] computes it (FIPS 180-4)

    One compression loop serves both word sizes; a [params] record carries
    what differs between SHA-256 and SHA-512. *)

Module Sha2.

Record params := {
  wbits : Z;                 (* word size in bits *)
  rounds : nat;              (* rounds, also the length of the schedule *)
  lenbytes : nat;            (* bytes of the length field in the padding *)
  bsig0 : Z * Z * Z;         (* rotations of the big sigma 0 *)
  bsig1 : Z * Z * Z;
  ssig0 : Z * Z * Z;         (* rotate, rotate, shift of the small sigma 0 *)
  ssig1 : Z * Z * Z;
  K : list Z;
  H0 : list Z
}.

Section Core.
Variable P : params.

Definition wmask : Z := Z.ones (wbits P).
Definition wrap (x : Z) : Z := Z.land x wmask.
Definition add (a b : Z) : Z := wrap (a + b).
Definition rotr (n x : Z) : Z :=
  Z.lor (Z.shiftr x n) (wrap (Z.shiftl x (wbits P - n))).
Definition wnot (x : Z) : Z := Z.lxor x wmask.

Definition big (r : Z * Z * Z) (x : Z) : Z :=
  let '(a, b, c) := r in Z.lxor (Z.lxor (rotr a x) (rotr b x)) (rotr c x).
Definition small (r : Z * Z * Z) (x : Z) : Z :=
  let '(a, b, c) := r in Z.lxor (Z.lxor (rotr a x) (rotr b x)) (Z.shiftr x c).

Definition Ch (x y z : Z) : Z := Z.lxor (Z.land x y) (Z.land (wnot x) z).
Definition Maj (x y z : Z) : Z :=
  Z.lxor (Z.lxor (Z.land x y) (Z.land x z)) (Z.land y z).

(** Big-endian bytes to a number, and back on [n] bytes. *)
Definition be_to_Z (bs : list Z) : Z :=
  fold_left (fun acc b => Z.lor (Z.shiftl acc 8) b) bs 0.

Fixpoint Z_to_be (n : nat) (x : Z) : list Z :=
  match n with
  | O => []
  | S n' => Z_to_be n' (Z.shiftr x 8) ++ [Z.land x 255]
  end.

Definition wbytes : nat := Z.to_nat (wbits P / 8).
Definition blockbytes : nat := (16 * wbytes)%nat.

Fixpoint chunks {A} (k : nat) (n : nat) (l : list A) : list (list A) :=
  match n with
  | O => []
  | S n' => firstn k l :: chunks k n' (skipn k l)
  end.

(** The message, a 1 bit, zeros up to the length field, the bit length. *)
Definition pad (msg : list Z) : list Z :=
  let len := length msg in
  let used := ((len + 1 + lenbytes P) mod blockbytes)%nat in
  let zeros := ((blockbytes - used) mod blockbytes)%nat in
  msg ++ [128] ++ repeat 0 zeros ++ Z_to_be (lenbytes P) (8 * Z.of_nat len).

(** The schedule, newest word first: [rev_w] holds W[t-1], W[t-2], ... *)
Fixpoint extend (n : nat) (rev_w : list Z) : list Z :=
  match n with
  | O => rev_w
  | S n' =>
      let w2 := nth 1 rev_w 0 in
      let w7 := nth 6 rev_w 0 in
      let w15 := nth 14 rev_w 0 in
      let w16 := nth 15 rev_w 0 in
      let w := add (add (add (small (ssig1 P) w2) w7) (small (ssig0 P) w15)) w16 in
      extend n' (w :: rev_w)
  end.

Definition schedule (block : list Z) : list Z :=
  let w16 := map be_to_Z (chunks wbytes 16 block) in
  rev (extend (rounds P - 16) (rev w16)).

Definition state : Type := Z * Z * Z * Z * Z * Z * Z * Z.

Definition round (s : state) (kw : Z * Z) : state :=
  let '(a, b, c, d, e, f, g, h) := s in
  let '(k, w) := kw in
  let t1 := add (add (add (add h (big (bsig1 P) e)) (Ch e f g)) k) w in
  let t2 := add (big (bsig0 P) a) (Maj a b c) in
  (add t1 t2, a, b, c, add d t1, e, f, g).

Definition of_list (l : list Z) : state :=
  match l with
  | [a; b; c; d; e; f; g; h] => (a, b, c, d, e, f, g, h)
  | _ => (0, 0, 0, 0, 0, 0, 0, 0)
  end.

Definition to_list (s : state) : list Z :=
  let '(a, b, c, d, e, f, g, h) := s in [a; b; c; d; e; f; g; h].

Definition compress (hs : list Z) (block : list Z) : list Z :=
  let s := fold_left round (combine (K P) (schedule block)) (of_list hs) in
  map (fun '(x, y) => add x y) (combine hs (to_list s)).

Definition hash_words (msg : list Z) : list Z :=
  let p := pad msg in
  fold_left compress (chunks blockbytes (length p / blockbytes) p) (H0 P).

Definition hash (msg : list Z) : list Z :=
  flat_map (Z_to_be wbytes) (hash_words msg).

End Core.

(** The constants by their definition: the first [wbits] bits of the
    fractional parts of the cube roots (the round constants) and of the
    square roots (the initial state) of the first primes. *)

Fixpoint root_bits (k n : Z) (bit : nat) (r : Z) : Z :=
  match bit with
  | O => r
  | S b =>
      let c := r + 2 ^ Z.of_nat b in
      root_bits k n b (if c ^ k <=? n then c else r)
  end.

(** The integer [k]-th root of [n], for a root below [2 ^ bits]. *)
Definition iroot (k : Z) (bits : nat) (n : Z) : Z := root_bits k n bits 0.

Definition frac_root (k w p : Z) : Z :=
  iroot k (Z.to_nat w + 8) (p * 2 ^ (k * w)) mod 2 ^ w.

Definition is_prime (n : Z) : bool :=
  forallb (fun d => negb (n mod Z.of_nat d =? 0)) (seq 2 (Z.to_nat n - 2)).

Definition primes (count : nat) : list Z :=
  firstn count (List.filter is_prime (map Z.of_nat (seq 2 420))).

Definition K256 : list Z := Eval vm_compute in map (frac_root 3 32) (primes 64).
Definition H256 : list Z := Eval vm_compute in map (frac_root 2 32) (primes 8).
Definition K512 : list Z := Eval vm_compute in map (frac_root 3 64) (primes 80).
Definition H512 : list Z := Eval vm_compute in map (frac_root 2 64) (primes 8).

Definition P256 : params := {|
  wbits := 32; rounds := 64; lenbytes := 8;
  bsig0 := (2, 13, 22); bsig1 := (6, 11, 25);
  ssig0 := (7, 18, 3); ssig1 := (17, 19, 10);
  K := K256; H0 := H256
|}.

Definition P512 : params := {|
  wbits := 64; rounds := 80; lenbytes := 16;
  bsig0 := (28, 34, 39); bsig1 := (14, 18, 41);
  ssig0 := (1, 8, 7); ssig1 := (19, 61, 6);
  K := K512; H0 := H512
|}.

Definition sha256 : list Z -> list Z := hash P256.
Definition sha512 : list Z -> list Z := hash P512.

End Sha2.

(** ** Base64: [btoa] and [atob] (the forgiving decoder of the platform) *)

Module Base64.

Definition alphabet : string :=
  "ABCDEFGHIJKLMNOPQRSTUVWXYZabcdefghijklmnopqrstuvwxyz0123456789+/".

Definition digit (i : Z) : ascii :=
  nth (Z.to_nat i) (list_ascii_of_string alphabet) "A"%char.

Fixpoint index_from (i : Z) (l : list ascii) (c : ascii) : option Z :=
  match l with
  | [] => None
  | x :: l' => if Ascii.eqb x c then Some i else index_from (i + 1) l' c
  end.

Definition index (c : ascii) : option Z :=
  index_from 0 (list_ascii_of_string alphabet) c.

Definition pad_char : ascii := "="%char.

Fixpoint encode (bs : list Z) : list ascii :=
  match bs with
  | [] => []
  | [a] =>
      [digit (Z.shiftr a 2); digit (Z.shiftl (Z.land a 3) 4); pad_char; pad_char]
  | [a; b] =>
      [digit (Z.shiftr a 2);
       digit (Z.lor (Z.shiftl (Z.land a 3) 4) (Z.shiftr b 4));
       digit (Z.shiftl (Z.land b 15) 2); pad_char]
  | a :: b :: c :: rest =>
      digit (Z.shiftr a 2)
      :: digit (Z.lor (Z.shiftl (Z.land a 3) 4) (Z.shiftr b 4))
      :: digit (Z.lor (Z.shiftl (Z.land b 15) 2) (Z.shiftr c 6))
      :: digit (Z.land c 63)
      :: encode rest
  end.

(** [btoa(s)], for a string of code units below 256. *)
Definition btoa (s : string) : string :=
  string_of_list_ascii (encode (JS.charCodes s)).

Definition is_space (c : ascii) : bool :=
  let z := JS.code c in
  (z =? 9) || (z =? 10) || (z =? 12) || (z =? 13) || (z =? 32).

(** [l] without one or two [=] at its end. *)
Fixpoint strip_tail (l : list ascii) : list ascii :=
  match l with
  | [] => []
  | [x] => if Ascii.eqb x pad_char then [] else [x]
  | [x; y] =>
      if Ascii.eqb y pad_char then
        if Ascii.eqb x pad_char then [] else [x]
      else [x; y]
  | x :: l' => x :: strip_tail l'
  end.

(** One or two trailing [=] go when the length is a multiple of four. *)
Definition strip_padding (l : list ascii) : list ascii :=
  if (length l mod 4 =? 0)%nat then strip_tail l else l.

Fixpoint sextets (l : list ascii) : option (list Z) :=
  match l with
  | [] => Some []
  | c :: l' =>
      match index c, sextets l' with
      | Some i, Some r => Some (i :: r)
      | _, _ => None
      end
  end.

Fixpoint decode (l : list Z) : list Z :=
  match l with
  | a :: b :: c :: d :: rest =>
      Z.lor (Z.shiftl a 2) (Z.shiftr b 4)
      :: Z.lor (Z.shiftl (Z.land b 15) 4) (Z.shiftr c 2)
      :: Z.lor (Z.shiftl (Z.land c 3) 6) d
      :: decode rest
  | [a; b; c] =>
      [Z.lor (Z.shiftl a 2) (Z.shiftr b 4);
       Z.lor (Z.shiftl (Z.land b 15) 4) (Z.shiftr c 2)]
  | [a; b] => [Z.lor (Z.shiftl a 2) (Z.shiftr b 4)]
  | _ => []
  end.

(** [atob(s)]: [None] when it throws [InvalidCharacterError]. *)
Definition atob (s : string) : option string :=
  let l := List.filter (fun c => negb (is_space c)) (list_ascii_of_string s) in
  let l := strip_padding l in
  if (length l mod 4 =? 1)%nat then None
  else
    match sextets l with
    | None => None
    | Some xs => Some (JS.fromCharCode (decode xs))
    end.

End Base64.

(** ** The routes *)

Definition dquote : ascii := "034"%char.
Definition q : string := String dquote EmptyString.

(** *** [parseDigestAuth]

    The pattern of the source, with the flag g, is: one or more word
    characters (group 1), an equals sign, then either a double quote, any
    characters but double quotes (group 2) and a double quote, or else any
    characters but commas (group 3). It is written here as a scanner. A match
    at a position needs the longest run of word characters there to be
    followed by the equals sign; a shorter run is followed by a word
    character, so backtracking into group 1 never helps. The quoted
    alternative needs a closing quote; without one the bare alternative takes
    everything up to the next comma, the opening quote included. *)

Definition is_word (c : ascii) : bool :=
  let z := JS.code c in
  ((65 <=? z) && (z <=? 90)) || ((97 <=? z) && (z <=? 122))
  || ((48 <=? z) && (z <=? 57)) || (z =? 95).

(** The longest prefix whose characters satisfy [p], and what follows. *)
Fixpoint span (p : ascii -> bool) (s : string) : string * string :=
  match s with
  | EmptyString => (EmptyString, EmptyString)
  | String c s' =>
      if p c then let '(a, b) := span p s' in (String c a, b)
      else (EmptyString, s)
  end.

(** Up to the first double quote: the text before it and the text after. *)
Fixpoint until_quote (s : string) : option (string * string) :=
  match s with
  | EmptyString => None
  | String c s' =>
      if Ascii.eqb c dquote then Some (EmptyString, s')
      else match until_quote s' with
           | Some (a, b) => Some (String c a, b)
           | None => None
           end
  end.

(** A [RegExpExecArray]: groups 1 to 3, and the input after the match (the
    part from [lastIndex] on). *)
Record RegExpMatch := {
  group1 : string;
  group2 : option string;
  group3 : option string;
  after : string
}.

Definition bare (key r : string) : RegExpMatch :=
  let '(v, rest) := span (fun c => negb (Ascii.eqb c ","%char)) r in
  {| group1 := key; group2 := None; group3 := Some v; after := rest |}.

(** The pattern anchored at the start of [s]. *)
Definition match_here (s : string) : option RegExpMatch :=
  match span is_word s with
  | (String k0 k, String e r) =>
      if Ascii.eqb e "="%char then
        match r with
        | String o r' =>
            if Ascii.eqb o dquote then
              match until_quote r' with
              | Some (v, rest) =>
                  Some {| group1 := String k0 k; group2 := Some v;
                          group3 := None; after := rest |}
              | None => Some (bare (String k0 k) r)
              end
            else Some (bare (String k0 k) r)
        | EmptyString => Some (bare (String k0 k) r)
        end
      else None
  | _ => None
  end.

(** [regex.exec(s)] from [lastIndex]: the leftmost match. *)
Fixpoint exec (s : string) : option RegExpMatch :=
  match match_here s with
  | Some m => Some m
  | None =>
      match s with
      | EmptyString => None
      | String _ s' => exec s'
      end
  end.

(** [match[2] || match[3] || ""] *)
Definition pair_value (m : RegExpMatch) : string :=
  default "" (JS.or_else (JS.or_else (group2 m) (group3 m)) (Some "")).

(** [params[key] = value] on a plain object: the inherited setter of
    [__proto__] ignores a string, so that one key stores nothing. *)
Definition obj_set (key value : string) (params : gmap string string)
  : gmap string string :=
  if String.eqb key "__proto__" then params else <[key := value]> params.

(** The [while (match !== null)] loop. Every match takes at least two
    characters, so [fuel] at the length of the input is never used up. *)
Fixpoint parse_loop (fuel : nat) (digestString : string)
  (params : gmap string string) : gmap string string :=
  match fuel with
  | O => params
  | S fuel' =>
      match exec digestString with
      | None => params
      | Some m =>
          let key := group1 m in
          let params' :=
            if JS.falsy (Some key) then params
            else
              let value := pair_value m in
              obj_set key value params in
          parse_loop fuel' (after m) params'
      end
  end.

(** [null] is [None]. *)
Definition parseDigestAuth (authHeader : option string)
  : option (gmap string string) :=
  match authHeader with
  | None => None
  | Some h =>
      if JS.falsy (Some h) || negb (JS.startsWith "Digest " h) then None
      else
        let digestString := JS.substring 7 h in
        Some (parse_loop (String.length digestString) digestString ∅)
  end.

(** *** [generateNonce], on the sixteen bytes it draws *)

Definition generateNonce (randomBytes : list Z) : string :=
  JS.replaceAll "="%char ""
    (JS.replaceAll "/"%char "_"
       (JS.replaceAll "+"%char "-"
          (Base64.btoa (JS.fromCharCode randomBytes)))).

(** *** [calculateDigest] and [md5Hash] *)

Definition hexdigit (z : Z) : ascii :=
  JS.chr (if z <? 10 then 48 + z else 87 + z).

(** [b.toString(16).padStart(2, "0")] for a byte. *)
Definition hex2 (b : Z) : string :=
  String (hexdigit (Z.shiftr b 4)) (String (hexdigit (Z.land b 15)) EmptyString).

Definition tohex (bs : list Z) : string := String.concat "" (map hex2 bs).

Definition calculateDigest (algorithm data : string) : string :=
  let dataBuffer := JS.encode data in
  let hashBuffer :=
    if String.eqb algorithm "MD5" then Sha2.sha256 dataBuffer
    else if String.eqb algorithm "SHA-256" then Sha2.sha256 dataBuffer
    else if String.eqb algorithm "SHA-512" then Sha2.sha512 dataBuffer
    else Sha2.sha256 dataBuffer in
  tohex hashBuffer.

Definition md5Hash (data : string) : string :=
  let dataBuffer := JS.encode data in
  let hashBuffer := Sha2.sha256 dataBuffer in
  JS.take 32 (tohex hashBuffer).

(** *** [generateDigestChallenge] *)

Definition generateDigestChallenge (realm : string) (qop algorithm : option string)
  (stale : bool) (randomBytes : list Z) : string :=
  let nonce := generateNonce randomBytes in
  let challenge := "Digest realm=" +:+ q +:+ realm +:+ q +:+ ", nonce=" +:+ q +:+ nonce +:+ q in
  let challenge :=
    match qop with
    | Some v => if JS.falsy qop then challenge
                else challenge +:+ ", qop=" +:+ q +:+ v +:+ q
    | None => challenge
    end in
  let challenge :=
    match algorithm with
    | Some v => if JS.falsy algorithm then challenge
                else challenge +:+ ", algorithm=" +:+ v
    | None => challenge
    end in
  let challenge := if stale then challenge +:+ ", stale=true" else challenge in
  challenge.

(** *** [checkDigestAuth] *)

(** A value inside a template literal. *)
Definition tmpl (o : option string) : string :=
  match o with
  | Some s => s
  | None => "undefined"
  end.

(** The dispatch repeated at each of the three hashes of the chain. *)
Definition chain_hash (algorithm data : string) : string :=
  if String.eqb algorithm "MD5" then md5Hash data
  else calculateDigest algorithm data.

(** The local values [A1], [HA1], [A2], [HA2] and the two forms of [KD]. *)
Definition A1 (username : string) (authParams : gmap string string)
  (password : string) : string :=
  username +:+ ":" +:+ tmpl (authParams !! "realm") +:+ ":" +:+ password.

Definition HA1 (algorithm username : string) (authParams : gmap string string)
  (password : string) : string :=
  chain_hash algorithm (A1 username authParams password).

Definition A2 (qop : option string) (method uri : string) : string :=
  if negb (JS.falsy qop) then method +:+ ":" +:+ uri
  else method +:+ ":" +:+ uri.

Definition HA2 (algorithm : string) (qop : option string) (method uri : string)
  : string :=
  chain_hash algorithm (A2 qop method uri).

Definition KD_qop (ha1 : string) (authParams : gmap string string)
  (qop : option string) (ha2 : string) : string :=
  ha1 +:+ ":" +:+ tmpl (authParams !! "nonce") +:+ ":"
  +:+ tmpl (authParams !! "nc") +:+ ":" +:+ tmpl (authParams !! "cnonce")
  +:+ ":" +:+ tmpl qop +:+ ":" +:+ ha2.

Definition KD_legacy (ha1 : string) (authParams : gmap string string)
  (ha2 : string) : string :=
  ha1 +:+ ":" +:+ tmpl (authParams !! "nonce") +:+ ":" +:+ ha2.

(** The local value [response]. *)
Definition response (algorithm ha1 : string) (authParams : gmap string string)
  (qop : option string) (ha2 : string) : string :=
  if negb (JS.falsy qop) && negb (JS.falsy (authParams !! "nc"))
     && negb (JS.falsy (authParams !! "cnonce"))
  then chain_hash algorithm (KD_qop ha1 authParams qop ha2)
  else chain_hash algorithm (KD_legacy ha1 authParams ha2).

Definition checkDigestAuth (authParams : gmap string string)
  (username password method uri : string) (qop : option string)
  (algorithm : string) : bool :=
  if JS.falsy (authParams !! "username") || JS.falsy (authParams !! "realm")
     || JS.falsy (authParams !! "nonce")
  then false
  else if negb (bool_decide (authParams !! "username" = Some username))
  then false
  else
    let ha1 := HA1 algorithm username authParams password in
    let ha2 := HA2 algorithm qop method uri in
    bool_decide (Some (response algorithm ha1 authParams qop ha2)
                 = authParams !! "response").

(** *** Requests and responses *)

Record Request := {
  method : string;                  (* [c.req.method] *)
  pathname : string;                (* [new URL(c.req.url).pathname] *)
  search : string;                  (* [new URL(c.req.url).search] *)
  authorization : option string     (* [c.req.header("authorization")] *)
}.

Inductive JsonValue :=
| JBool (b : bool)
| JString (s : string).

Inductive Body :=
| BodyNull
| BodyText (s : string)
| BodyJson (fields : list (string * JsonValue)).

(** [headers] is the record of headers the handler passes; [c.json] and
    [c.body] pass none of their own here. *)
Record Response := {
  status : Z;
  headers : list (string * string);
  body : Body
}.

Inductive Exception :=
| InvalidCharacterError.            (* thrown by [atob] *)

Inductive Outcome :=
| Respond (r : Response)
| Throw (e : Exception).

(** [c.body(data, status, headers)] and [c.json(object)]. *)
Definition c_body (data : Body) (st : Z) (hs : list (string * string)) : Response :=
  {| status := st; headers := hs; body := data |}.

Definition c_json (fields : list (string * JsonValue)) : Response :=
  {| status := 200; headers := []; body := BodyJson fields |}.

Definition header (name : string) (r : Response) : option string :=
  snd <$> List.find (fun kv => String.eqb (fst kv) name) (headers r).

(** *** [GET /basic-auth/:user/:passwd] *)

Definition basic_challenge : string := "Basic realm=" +:+ q +:+ "Fake Realm" +:+ q.

Definition basic_auth (user passwd : string) (req : Request) : Outcome :=
  let authHeader := authorization req in
  match authHeader with
  | None => Respond (c_body BodyNull 401 [("WWW-Authenticate", basic_challenge)])
  | Some h =>
      if JS.falsy authHeader || negb (JS.startsWith "Basic " h) then
        Respond (c_body BodyNull 401 [("WWW-Authenticate", basic_challenge)])
      else
        match Base64.atob (JS.substring 6 h) with
        | None => Throw InvalidCharacterError
        | Some credentials =>
            let parts := JS.split ":"%char credentials in
            let providedUser := nth_error parts 0 in
            let providedPasswd := nth_error parts 1 in
            if negb (bool_decide (providedUser = Some user))
               || negb (bool_decide (providedPasswd = Some passwd))
            then
              Respond (c_body BodyNull 401 [("WWW-Authenticate", basic_challenge)])
            else
              Respond (c_json [("authenticated", JBool true); ("user", JString user)])
        end
  end.

(** *** [GET /bearer] *)

Definition bearer_auth (req : Request) : Outcome :=
  let authHeader := authorization req in
  match authHeader with
  | None => Respond (c_body BodyNull 401 [("WWW-Authenticate", "Bearer")])
  | Some h =>
      if JS.falsy authHeader || negb (JS.startsWith "Bearer " h) then
        Respond (c_body BodyNull 401 [("WWW-Authenticate", "Bearer")])
      else
        let token := JS.substring 7 h in
        Respond (c_json [("authenticated", JBool true); ("token", JString token)])
  end.

(** *** The Digest routes

    The three handlers differ in the validation of the route parameters, in
    the algorithm named in the challenge and in the stale flag; what follows
    the validation is the same text in each, written once here. *)

Definition realm : string := "Fake Realm".

Definition digest_body (qop user passwd : string) (challengeAlgorithm : option string)
  (algorithm : string) (stale : bool) (randomBytes : list Z) (req : Request)
  : Outcome :=
  let authHeader := authorization req in
  let challenge (_ : unit) :=
    Respond (c_body BodyNull 401
      [("WWW-Authenticate",
        generateDigestChallenge realm (Some qop) challengeAlgorithm stale randomBytes)]) in
  if JS.falsy authHeader then challenge tt
  else
    match parseDigestAuth authHeader with
    | None => challenge tt
    | Some authParams =>
        let uri := pathname req +:+ search req in
        let isValid :=
          checkDigestAuth authParams user passwd (method req) uri (Some qop) algorithm in
        if negb isValid then challenge tt
        else Respond (c_json [("authenticated", JBool true); ("user", JString user)])
    end.

Definition valid_qop (qop : string) : bool :=
  String.eqb qop "auth" || String.eqb qop "auth-int".

Definition valid_algorithm (algorithm : string) : bool :=
  String.eqb algorithm "MD5" || String.eqb algorithm "SHA-256"
  || String.eqb algorithm "SHA-512".

(** [GET /digest-auth/:qop/:user/:passwd] *)
Definition digest_auth_md5 (qop user passwd : string) (randomBytes : list Z)
  (req : Request) : Outcome :=
  if negb (valid_qop qop) then
    Respond (c_body (BodyText "Invalid value for qop") 400 [])
  else digest_body qop user passwd None "MD5" false randomBytes req.

(** [GET /digest-auth/:qop/:user/:passwd/:algorithm] *)
Definition digest_auth_nostale (qop user passwd algorithm : string)
  (randomBytes : list Z) (req : Request) : Outcome :=
  if negb (valid_qop qop) then
    Respond (c_body (BodyText "Invalid value for qop") 400 [])
  else if negb (valid_algorithm algorithm) then
    Respond (c_body (BodyText "Invalid value for algorithm") 400 [])
  else digest_body qop user passwd (Some algorithm) algorithm false randomBytes req.

(** [parseInt(s, 10)]: [None] is [NaN]. White space is skipped, then a sign,
    then the longest run of decimal digits is read; no digit gives [NaN]. The
    value is exact here, which agrees with the rounded one on its sign. *)
Definition is_js_space (c : ascii) : bool :=
  let z := JS.code c in
  ((9 <=? z) && (z <=? 13)) || (z =? 32) || (z =? 160).

Definition is_digit (c : ascii) : bool :=
  let z := JS.code c in (48 <=? z) && (z <=? 57).

Fixpoint digits_value (acc : Z) (s : string) : Z :=
  match s with
  | EmptyString => acc
  | String c s' => digits_value (10 * acc + (JS.code c - 48)) s'
  end.

Definition parseInt10 (s : string) : option Z :=
  let s := snd (span is_js_space s) in
  let '(sign, s) :=
    match s with
    | String c s' =>
        if Ascii.eqb c "-"%char then (-1, s')
        else if Ascii.eqb c "+"%char then (1, s')
        else (1, s)
    | EmptyString => (1, s)
    end in
  match fst (span is_digit s) with
  | EmptyString => None
  | ds => Some (sign * digits_value 0 ds)
  end.

Definition shouldBeStale (staleAfter : string) : bool :=
  negb (String.eqb staleAfter "never")
  && negb (bool_decide (parseInt10 staleAfter = None))
  && match parseInt10 staleAfter with
     | Some n => n <=? 0
     | None => false
     end.

(** [GET /digest-auth/:qop/:user/:passwd/:algorithm/:stale_after] *)
Definition digest_auth (qop user passwd algorithm staleAfter : string)
  (randomBytes : list Z) (req : Request) : Outcome :=
  if negb (valid_qop qop) then
    Respond (c_body (BodyText "Invalid value for qop") 400 [])
  else if negb (valid_algorithm algorithm) then
    Respond (c_body (BodyText "Invalid value for algorithm") 400 [])
  else
    digest_body qop user passwd (Some algorithm) algorithm
      (shouldBeStale staleAfter) randomBytes req.

(** ** The hash chain as the specification words it (section 4.3)

    Written from the specification, to be compared with [HA2] above: with
    [qop = auth-int] the hash of the entity body is a third component. *)

Module Spec.

Definition HA2 (algorithm : string) (qop : option string)
  (method uri entityBody : string) : string :=
  if bool_decide (qop = Some "auth-int") then
    chain_hash algorithm
      (method +:+ ":" +:+ uri +:+ ":" +:+ chain_hash algorithm entityBody)
  else chain_hash algorithm (method +:+ ":" +:+ uri).

End Spec.

(** ** Responses the handlers build *)

Definition unauthorized (challenge : string) : Response :=
  c_body BodyNull 401 [("WWW-Authenticate", challenge)].

Definition authenticated_user (user : string) : Response :=
  c_json [("authenticated", JBool true); ("user", JString user)].

Definition authenticated_token (token : string) : Response :=
  c_json [("authenticated", JBool true); ("token", JString token)].

Definition bad_request (message : string) : Response :=
  c_body (BodyText message) 400 [].

(** The answer of a Digest route once the verdict is known. *)
Definition digest_answer (isValid : bool) (user challenge : string) : Outcome :=
  if isValid then Respond (authenticated_user user)
  else Respond (unauthorized challenge).

(** The request URI, as the handlers rebuild it. *)
Definition request_uri (req : Request) : string := pathname req +:+ search req.

Definition get (path : string) (auth : option string) : Request :=
  {| method := "GET"; pathname := path; search := ""; authorization := auth |}.

(** ** Notions used in the statements *)

(** The values of a byte. *)
Definition bytes : list Z := map Z.of_nat (seq 0 256).

Definition is_byte (a : Z) : Prop := 0 <= a < 256.

(** [i] is the place of its own digit in the alphabet. *)
Definition is_index (i : Z) : bool :=
  bool_decide (Base64.index (Base64.digit i) = Some i).

(** The second and third digits of a group of three bytes. *)
Definition digit2 (a b : Z) : Z := Z.lor (Z.shiftl (Z.land a 3) 4) (Z.shiftr b 4).
Definition digit3 (b c : Z) : Z := Z.lor (Z.shiftl (Z.land b 15) 2) (Z.shiftr c 6).

(** [absent c s]: the code unit [c] does not occur in [s]. *)
Fixpoint absent (c : ascii) (s : string) : bool :=
  match s with
  | EmptyString => true
  | String x s' => negb (Ascii.eqb x c) && absent c s'
  end.

(** [all p s]: every code unit of [s] satisfies [p]. *)
Fixpoint all (p : ascii -> bool) (s : string) : bool :=
  match s with
  | EmptyString => true
  | String x s' => p x && all p s'
  end.

(** A key of the pattern: one or more word characters. *)
Definition wordy (k : string) : bool :=
  match k with
  | EmptyString => false
  | String _ _ => all is_word k
  end.

(** The pairs the loop meets, in order. *)
Fixpoint pairs (fuel : nat) (digestString : string) : list (string * string) :=
  match fuel with
  | O => []
  | S fuel' =>
      match exec digestString with
      | None => []
      | Some m => (group1 m, pair_value m) :: pairs fuel' (after m)
      end
  end.

(** The grammar matches somewhere in [s]: a word character directly before
    an equals sign. *)
Definition has_pair (s : string) : Prop :=
  exists a c b, s = a +:+ String c (String "="%char b) /\ is_word c = true.

(** One assignment of the loop. *)
Definition store (params : gmap string string) (kv : string * string)
  : gmap string string :=
  obj_set (fst kv) (snd kv) params.

(** The value of the last pair of [l] whose key is [k]. *)
Fixpoint last_value (k : string) (l : list (string * string)) : option string :=
  match l with
  | [] => None
  | (k', v) :: l' =>
      match last_value k l' with
      | Some v' => Some v'
      | None => if String.eqb k' k then Some v else None
      end
  end.

(** What a challenge should read back as. *)
Definition challenge_params (r nonce : string) (qop algorithm : option string)
  (stale : bool) : gmap string string :=
  let m := <["nonce" := nonce]> (<["realm" := r]> ∅) in
  let m := match qop with Some v => <["qop" := v]> m | None => m end in
  let m := match algorithm with Some v => <["algorithm" := v]> m | None => m end in
  if stale then <["stale" := "true"]> m else m.

(** The optional fields of a challenge, in the order they are appended. *)
Definition challenge_fields (qop algorithm : option string) (stale : bool)
  : string :=
  (match qop with
   | Some v => if JS.falsy qop then "" else ", qop=" +:+ q +:+ v +:+ q
   | None => ""
   end)
  +:+ (match algorithm with
       | Some v => if JS.falsy algorithm then "" else ", algorithm=" +:+ v
       | None => ""
       end)
  +:+ (if stale then ", stale=true" else "").

(** The response of a client that sends neither [nc] nor [cnonce], and its
    header: user name, realm, nonce and response, each quoted. *)
Definition legacy_response (algorithm user clientRealm passwd nonce method uri
  : string) : string :=
  chain_hash algorithm
    (chain_hash algorithm (user +:+ ":" +:+ clientRealm +:+ ":" +:+ passwd)
     +:+ ":" +:+ nonce +:+ ":"
     +:+ chain_hash algorithm (method +:+ ":" +:+ uri)).

Definition legacy_client_header (algorithm user clientRealm passwd nonce method
  uri : string) : string :=
  "Digest username=" +:+ q +:+ user +:+ q
  +:+ ", realm=" +:+ q +:+ clientRealm +:+ q
  +:+ ", nonce=" +:+ q +:+ nonce +:+ q
  +:+ ", response=" +:+ q
  +:+ legacy_response algorithm user clientRealm passwd nonce method uri +:+ q.

Definition legacy_client_request (algorithm user clientRealm passwd nonce method
  path query : string) : Request :=
  {| method := method; pathname := path; search := query;
     authorization :=
       Some (legacy_client_header algorithm user clientRealm passwd nonce method
               (path +:+ query)) |}.

(** ** Example requests

    A client of [/digest-auth/auth/foo/bar] that hashes the realm
    [Other Realm] and sends it, and one that sends neither [nc] nor [cnonce]
    and answers in the legacy form. *)

Definition foreign_realm_header : string :=
  "Digest username=" +:+ q +:+ "foo" +:+ q
  +:+ ", realm=" +:+ q +:+ "Other Realm" +:+ q
  +:+ ", nonce=" +:+ q +:+ "obLD1OX2BxgpOktcbX6PoA" +:+ q
  +:+ ", uri=" +:+ q +:+ "/digest-auth/auth/foo/bar" +:+ q
  +:+ ", response=" +:+ q +:+ "d0fa4e49a59363aee06760cae04aee52" +:+ q
  +:+ ", cnonce=" +:+ q +:+ "0a4f113b" +:+ q
  +:+ ", nc=00000001, qop=auth".

Definition foreign_realm_params : gmap string string :=
  <["qop" := "auth"]> (<["nc" := "00000001"]> (<["cnonce" := "0a4f113b"]>
  (<["response" := "d0fa4e49a59363aee06760cae04aee52"]>
  (<["uri" := "/digest-auth/auth/foo/bar"]>
  (<["nonce" := "obLD1OX2BxgpOktcbX6PoA"]>
  (<["realm" := "Other Realm"]> (<["username" := "foo"]> ∅))))))).

Definition legacy_header : string :=
  "Digest username=" +:+ q +:+ "foo" +:+ q
  +:+ ", realm=" +:+ q +:+ "Fake Realm" +:+ q
  +:+ ", nonce=" +:+ q +:+ "obLD1OX2BxgpOktcbX6PoA" +:+ q
  +:+ ", uri=" +:+ q +:+ "/digest-auth/auth/foo/bar" +:+ q
  +:+ ", response=" +:+ q +:+ "06261e6bbb495cec0fa03e4f85aaa69e" +:+ q.

Definition legacy_params : gmap string string :=
  <["response" := "06261e6bbb495cec0fa03e4f85aaa69e"]>
  (<["uri" := "/digest-auth/auth/foo/bar"]>
  (<["nonce" := "obLD1OX2BxgpOktcbX6PoA"]>
  (<["realm" := "Fake Realm"]> (<["username" := "foo"]> ∅)))).

(** ** Headers as a client writes them

    A field of a Digest header, quoted or bare, and a list of fields joined
    by a comma and a space: the text the test helper [makeDigestAuthHeader]
    and [generateDigestChallenge] produce after the scheme. *)

Inductive Field :=
| Quoted (key value : string)
| Bare (key value : string).

Definition field_pair (f : Field) : string * string :=
  match f with
  | Quoted k v => (k, v)
  | Bare k v => (k, v)
  end.

Definition render_field (f : Field) : string :=
  match f with
  | Quoted k v => k +:+ "=" +:+ q +:+ v +:+ q
  | Bare k v => k +:+ "=" +:+ v
  end.

Fixpoint render_fields (fs : list Field) : string :=
  match fs with
  | [] => ""
  | [f] => render_field f
  | f :: fs' => render_field f +:+ ", " +:+ render_fields fs'
  end.

(** A key of word characters; a quoted value without a double quote; a bare
    value without a comma that does not open with a double quote. *)
Definition field_ok (f : Field) : bool :=
  match f with
  | Quoted k v => wordy k && absent dquote v
  | Bare k v => wordy k && absent ","%char v && negb (JS.startsWith q v)
  end.

(** The header of a client that answers a challenge in the form with [qop],
    [nc] and [cnonce], with the fields in the order of the test helper. *)
Definition qop_response (algorithm user clientRealm passwd nonce nc cnonce qop
  method uri : string) : string :=
  chain_hash algorithm
    (chain_hash algorithm (user +:+ ":" +:+ clientRealm +:+ ":" +:+ passwd)
     +:+ ":" +:+ nonce +:+ ":" +:+ nc +:+ ":" +:+ cnonce +:+ ":" +:+ qop
     +:+ ":" +:+ chain_hash algorithm (method +:+ ":" +:+ uri)).

Definition qop_client_fields (algorithm user clientRealm passwd nonce nc cnonce
  qop method uri : string) : list Field :=
  [ Quoted "username" user;
    Quoted "response"
      (qop_response algorithm user clientRealm passwd nonce nc cnonce qop
         method uri);
    Quoted "uri" uri;
    Quoted "nonce" nonce;
    Quoted "realm" clientRealm;
    Quoted "cnonce" cnonce;
    Bare "nc" nc;
    Bare "qop" qop ].

Definition qop_client_request (algorithm user clientRealm passwd nonce nc cnonce
  qop method path query : string) : Request :=
  {| method := method; pathname := path; search := query;
     authorization :=
       Some ("Digest "
             +:+ render_fields
                   (qop_client_fields algorithm user clientRealm passwd nonce nc
                      cnonce qop method (path +:+ query))) |}.

(** ** What a Digest route verifies

    The request carries a Digest header whose fields name the user of the
    route, a non-empty realm and nonce, and the response recomputed over
    them. *)
Definition verified (algorithm qop user passwd : string) (req : Request) : Prop :=
  exists h authParams clientRealm nonce,
    authorization req = Some h
    /\ JS.startsWith "Digest " h = true
    /\ parseDigestAuth (Some h) = Some authParams
    /\ authParams !! "username" = Some user /\ user <> ""
    /\ authParams !! "realm" = Some clientRealm /\ clientRealm <> ""
    /\ authParams !! "nonce" = Some nonce /\ nonce <> ""
    /\ authParams !! "response"
       = Some (response algorithm
                 (chain_hash algorithm
                    (user +:+ ":" +:+ clientRealm +:+ ":" +:+ passwd))
                 authParams (Some qop)
                 (chain_hash algorithm (method req +:+ ":" +:+ request_uri req))).

(** The status of an answer, when there is one. *)
Definition status_of (o : Outcome) : option Z :=
  match o with
  | Respond r => Some (status r)
  | Throw _ => None
  end.

(** The challenge of an answer, when it carries one. *)
Definition challenge_of (o : Outcome) : option string :=
  match o with
  | Respond r => header "WWW-Authenticate" r
  | Throw _ => None
  end.

(** An answer decided by [P]: 200 with the user when it holds, 401 with the
    challenge when it does not. *)
Definition decides (P : Prop) (o : Outcome) (user challenge : string) : Prop :=
  (P /\ o = Respond (authenticated_user user))
  \/ (~ P /\ o = Respond (unauthorized challenge)).

(** ** The nonce, character by character *)

(** The characters of a nonce: letters, digits, [_] and [-]. *)
Definition url_safe (c : ascii) : bool := is_word c || Ascii.eqb c "-"%char.

(** What the three [replace] calls of [generateNonce] make of a character
    other than [=]. *)
Definition to_url (c : ascii) : ascii :=
  if Ascii.eqb c "+"%char then "-"%char
  else if Ascii.eqb c "/"%char then "_"%char
  else c.

Definition not_pad (c : ascii) : bool := negb (Ascii.eqb c Base64.pad_char).

(** A number as [Uint8Array] and [String.fromCharCode] keep it. *)
Definition as_byte (z : Z) : Z := JS.code (JS.chr z).

(** A lowercase hexadecimal digit. *)
Definition is_hex (c : ascii) : bool :=
  let z := JS.code c in
  ((48 <=? z) && (z <=? 57)) || ((97 <=? z) && (z <=? 102)).

(** ** The image routes (the second part of the file)

    [serveImage] and the handler of [GET /image]. The asset store
    [c.env.ASSETS] is a parameter: [fetch] gets the path of the asset and the
    raw request it is asked with, and answers with a status and a body. *)

Module Images.

Inductive ImageFormat := png | jpeg | webp | svg.

Record ImageConfig := { path : string; contentType : string }.

Definition IMAGE_CONFIG (format : ImageFormat) : ImageConfig :=
  match format with
  | png => {| path := "/images/pig_icon.png"; contentType := "image/png" |}
  | jpeg => {| path := "/images/jackal.jpg"; contentType := "image/jpeg" |}
  | webp => {| path := "/images/wolf_1.webp"; contentType := "image/webp" |}
  | svg => {| path := "/images/svg_logo.svg"; contentType := "image/svg+xml" |}
  end.

(** [c.toLowerCase()] on a code unit below 256: the letters A to Z and the
    accented capitals, the multiplication sign apart. *)
Definition lower (c : ascii) : ascii :=
  let z := JS.code c in
  if ((65 <=? z) && (z <=? 90))
     || ((192 <=? z) && (z <=? 222) && negb (z =? 215))
  then JS.chr (z + 32) else c.

Fixpoint toLowerCase (s : string) : string :=
  match s with
  | EmptyString => EmptyString
  | String c s' => String (lower c) (toLowerCase s')
  end.

Inductive ImageBody :=
| Bytes (bs : list Z)
| Text (s : string).

(** The answer of the asset store. *)
Record Asset := { asset_status : Z; asset_body : list Z }.

(** An answer of the image routes: its status, the [Content-Type] the
    handler sets itself, and its body. *)
Record ImageResponse := {
  image_status : Z;
  image_type : option string;
  image_body : ImageBody
}.

(** [c.text(text, status)] *)
Definition c_text (text : string) (st : Z) : ImageResponse :=
  {| image_status := st; image_type := None; image_body := Text text |}.

Section Routes.
Variable RawRequest : Type.
Variable fetch : string -> RawRequest -> Asset.

Definition serveImage (raw : RawRequest) (format : ImageFormat) : ImageResponse :=
  let config := IMAGE_CONFIG format in
  let response := fetch (path config) raw in
  if asset_status response =? 404 then c_text "Image not found" 404
  else {| image_status := 200;
          image_type := Some (contentType config);
          image_body := Bytes (asset_body response) |}.

(** [GET /image], on the [Accept] header of the request. *)
Definition image (raw : RawRequest) (acceptHeader : option string)
  : ImageResponse :=
  let accept :=
    default "" (JS.or_else (option_map toLowerCase acceptHeader) (Some "")) in
  if JS.falsy (Some accept) then serveImage raw png
  else if JS.includes "image/webp" accept then serveImage raw webp
  else if JS.includes "image/svg+xml" accept then serveImage raw svg
  else if JS.includes "image/jpeg" accept then serveImage raw jpeg
  else if JS.includes "image/png" accept || JS.includes "image/*" accept
  then serveImage raw png
  else c_text "Unsupported media type" 406.

(** [GET /image/png] and the three like it. *)
Definition image_png (raw : RawRequest) : ImageResponse := serveImage raw png.
Definition image_jpeg (raw : RawRequest) : ImageResponse := serveImage raw jpeg.
Definition image_webp (raw : RawRequest) : ImageResponse := serveImage raw webp.
Definition image_svg (raw : RawRequest) : ImageResponse := serveImage raw svg.

End Routes.

End Images.

(** A store for the examples: it fails on the WebP and lacks the rest. *)
Definition sample_store (path : string) (_ : unit) : Images.Asset :=
  {| Images.asset_status := if String.eqb path "/images/wolf_1.webp" then 500 else 404;
     Images.asset_body := [82; 73; 70; 70] |}.

(** ** The pattern as a grammar

    What the pattern of [parseDigestAuth] matches, said of the text alone and
    without the scanner: where a pair starts, which match is the leftmost,
    and which value each alternative takes. *)

(** A pair starts at the head of [t]: one or more word characters, then the
    equals sign. Whatever follows, one of the two alternatives for the value
    matches there. *)
Definition starts_pair (t : string) : Prop :=
  exists k b, wordy k = true /\ t = k +:+ "=" +:+ b.

(** No pair starts in [s] before the position [n]. *)
Definition none_before (n : nat) (s : string) : Prop :=
  forall a b, s = a +:+ b -> (String.length a < n)%nat -> ~ starts_pair b.

(** The quoted alternative matches at the head of [t]: a double quote, and
    another one later. *)
Definition opens_quoted (t : string) : Prop :=
  exists v rest, t = q +:+ v +:+ q +:+ rest.

(** [grammar_pairs s l]: [l] is the list of the keys and values of the
    successive matches of the pattern in [s], each the leftmost one after
    the end of the one before.
    - No match: no pair starts anywhere in the text.
    - A quoted match: the value is the text between the double quote after
      the equals sign and the next double quote; the search goes on after
      the latter.
    - A bare match, when the quoted alternative fails: the value is the text
      after the equals sign up to the next comma, or to the end; the search
      goes on at the comma. *)
Inductive grammar_pairs : string -> list (string * string) -> Prop :=
| grammar_end (s : string) :
    (forall a b, s = a +:+ b -> ~ starts_pair b) ->
    grammar_pairs s []
| grammar_quoted (pre k v rest : string) (l : list (string * string)) :
    none_before (String.length pre)
      (pre +:+ k +:+ "=" +:+ q +:+ v +:+ q +:+ rest) ->
    wordy k = true ->
    absent dquote v = true ->
    grammar_pairs rest l ->
    grammar_pairs (pre +:+ k +:+ "=" +:+ q +:+ v +:+ q +:+ rest) ((k, v) :: l)
| grammar_bare (pre k v rest : string) (l : list (string * string)) :
    none_before (String.length pre) (pre +:+ k +:+ "=" +:+ v +:+ rest) ->
    wordy k = true ->
    ~ opens_quoted (v +:+ rest) ->
    absent ","%char v = true ->
    rest = "" \/ (exists r, rest = "," +:+ r) ->
    grammar_pairs rest l ->
    grammar_pairs (pre +:+ k +:+ "=" +:+ v +:+ rest) ((k, v) :: l).

(** ** What a Digest route verifies of credentials without [nc] or [cnonce]

    The fields name the user of the route, a non-empty realm and a non-empty
    nonce, and the response in the legacy form over them. *)
Definition legacy_verified (algorithm user passwd : string) (req : Request)
  (authParams : gmap string string) : Prop :=
  exists clientRealm nonce,
    authParams !! "username" = Some user /\ user <> ""
    /\ authParams !! "realm" = Some clientRealm /\ clientRealm <> ""
    /\ authParams !! "nonce" = Some nonce /\ nonce <> ""
    /\ authParams !! "response"
       = Some (legacy_response algorithm user clientRealm passwd nonce
                 (method req) (request_uri req)).

(** A client of [/digest-auth/auth/foo/bar] that names the empty nonce and
    answers in the legacy form over it. *)
Definition empty_nonce_header : string :=
  "Digest username=" +:+ q +:+ "foo" +:+ q
  +:+ ", realm=" +:+ q +:+ "Fake Realm" +:+ q
  +:+ ", nonce=" +:+ q +:+ q
  +:+ ", response=" +:+ q +:+ "24285df7803e59693a7b0d6ca5abc4cf" +:+ q.

(** * Properties *)

(** ** The hash functions on the test vectors of FIPS 180-4 *)

Example K256_ends :
  hd 0 (Sha2.K Sha2.P256) = 0x428a2f98 /\ List.last (Sha2.K Sha2.P256) 0 = 0xc67178f2
  /\ length (Sha2.K Sha2.P256) = 64%nat.
Proof. repeat split. Qed.

Example K512_ends :
  hd 0 (Sha2.K Sha2.P512) = 0x428a2f98d728ae22
  /\ List.last (Sha2.K Sha2.P512) 0 = 0x6c44198c4a475817
  /\ length (Sha2.K Sha2.P512) = 80%nat.
Proof. repeat split. Qed.

Example sha256_abc :
  tohex (Sha2.sha256 (JS.encode "abc"))
  = "ba7816bf8f01cfea414140de5dae2223b00361a396177a9cb410ff61f20015ad".
Proof. vm_compute. reflexivity. Qed.

Example sha256_two_blocks :
  tohex (Sha2.sha256
           (JS.encode "abcdbcdecdefdefgefghfghighijhijkijkljklmklmnlmnomnopnopq"))
  = "248d6a61d20638b8e5c026930c3e6039a33ce45964ff2167f6ecedd419db06c1".
Proof. vm_compute. reflexivity. Qed.

Example sha512_abc :
  tohex (Sha2.sha512 (JS.encode "abc"))
  = "ddaf35a193617abacc417349ae20413112e6fa4e89a97ea20a9eeee64b55d39a"
    +:+ "2192992a274fc1a836ba3c23a3feebbd454d4423643ce80e2a9ac94fa54ca49f".
Proof. vm_compute. reflexivity. Qed.

Example sha512_empty :
  tohex (Sha2.sha512 (JS.encode ""))
  = "cf83e1357eefb8bdf1542850d66d8007d620e4050b5715dc83f4a921d36ce9ce"
    +:+ "47d0d13c5d85f2b0ff8318d2877eec2f63b931bd47417a81a538327af927da3e".
Proof. vm_compute. reflexivity. Qed.

(** ** Bearer *)


(** What decides the answer, for every header: the handler answers 200 with
    the remainder as the token exactly when the header starts with the
    prefix [Bearer ]; otherwise (no header, or one without the prefix, such
    as [Bearer] alone) it answers 401 with [WWW-Authenticate: Bearer]. *)
Theorem bearer_auth_decided_by_prefix (req : Request) :
  (forall h, authorization req = Some h -> JS.startsWith "Bearer " h = true ->
     bearer_auth req = Respond (authenticated_token (JS.substring 7 h)))
  /\ ((authorization req = None
       \/ exists h, authorization req = Some h
                    /\ JS.startsWith "Bearer " h = false) ->
      bearer_auth req = Respond (unauthorized "Bearer")).
Proof.
  unfold bearer_auth. split.
  - intros h -> Hs. rewrite Hs.
    assert (JS.falsy (Some h) = false) as ->.
    { destruct h; [discriminate Hs | reflexivity]. }
    reflexivity.
  - intros [-> | (h & -> & Hs)]; [reflexivity|].
    rewrite Hs, orb_true_r. reflexivity.
Qed.

Lemma bearer_auth_decided_by_prefix_witness :
  bearer_auth (get "/bearer" (Some "Bearer abcd1234"))
  = Respond (authenticated_token "abcd1234")
  /\ bearer_auth (get "/bearer" (Some "Bearer")) = Respond (unauthorized "Bearer").
Proof.
  split.
  - apply (proj1 (bearer_auth_decided_by_prefix
                    (get "/bearer" (Some "Bearer abcd1234"))) "Bearer abcd1234");
      reflexivity.
  - apply (proj2 (bearer_auth_decided_by_prefix (get "/bearer" (Some "Bearer")))).
    right. exists "Bearer". split; reflexivity.
Defined.

Lemma startsWith_substring (p s : string) :
  JS.startsWith p s = true -> s = p +:+ JS.substring (String.length p) s.
Proof.
  revert s. induction p as [|a p IH]; intros s; [reflexivity|].
  destruct s as [|b s]; [discriminate|]. cbn [JS.startsWith].
  intros [Hab Hs]%andb_true_iff. apply Ascii.eqb_eq in Hab. subst b.
  cbn [String.length JS.substring String.append]. f_equal. exact (IH s Hs).
Qed.

(** The empty token is accepted on one header value only: the prefix
    [Bearer ] with its space and nothing after it. *)
Lemma bearer_empty_token_iff (req : Request) :
  bearer_auth req = Respond (authenticated_token "")
  <-> authorization req = Some "Bearer ".
Proof.
  split.
  - unfold bearer_auth. destruct (authorization req) as [h|]; [|discriminate].
    destruct (JS.startsWith "Bearer " h) eqn:Hs.
    + assert (JS.falsy (Some h) = false) as ->
        by (destruct h; [discriminate Hs | reflexivity]).
      cbn [negb orb]. unfold authenticated_token, c_json. intros [= Htok].
      apply startsWith_substring in Hs.
      change (JS.substring (String.length "Bearer ") h) with (JS.substring 7 h)
        in Hs.
      change (JS.substring 7 h = "") in Htok.
      rewrite Htok in Hs. rewrite Hs. reflexivity.
    + rewrite orb_true_r. discriminate.
  - intros H. unfold bearer_auth. rewrite H. reflexivity.
Qed.

(** ** Digest: validation of the route parameters *)

Lemma valid_qop_spec (qop : string) :
  valid_qop qop = true <-> qop = "auth" \/ qop = "auth-int".
Proof.
  unfold valid_qop. rewrite orb_true_iff, !String.eqb_eq. reflexivity.
Qed.

Lemma valid_algorithm_spec (algorithm : string) :
  valid_algorithm algorithm = true <->
  algorithm = "MD5" \/ algorithm = "SHA-256" \/ algorithm = "SHA-512".
Proof.
  unfold valid_algorithm. rewrite !orb_true_iff, !String.eqb_eq. tauto.
Qed.

Lemma invalid_qop (qop : string) :
  qop <> "auth" -> qop <> "auth-int" -> valid_qop qop = false.
Proof.
  intros H1 H2. destruct (valid_qop qop) eqn:E; [|reflexivity].
  apply valid_qop_spec in E. tauto.
Qed.

Lemma invalid_algorithm (algorithm : string) :
  algorithm <> "MD5" -> algorithm <> "SHA-256" -> algorithm <> "SHA-512" ->
  valid_algorithm algorithm = false.
Proof.
  intros H1 H2 H3. destruct (valid_algorithm algorithm) eqn:E; [|reflexivity].
  apply valid_algorithm_spec in E. tauto.
Qed.

(** C6: a [qop] outside [auth], [auth-int] is answered 400 with the text
    [Invalid value for qop] on the three Digest routes, and an [algorithm]
    outside [MD5], [SHA-256], [SHA-512] is answered 400 with the text
    [Invalid value for algorithm] on the two routes that take one. The
    answer is the same for every request and every draw of random bytes:
    neither the [Authorization] header nor the parser nor a hash has a part
    in it. *)
Theorem route_validation_first
  (qop user passwd algorithm staleAfter : string)
  (randomBytes : list Z) (req : Request) :
  (qop <> "auth" -> qop <> "auth-int" ->
     digest_auth_md5 qop user passwd randomBytes req
     = Respond (bad_request "Invalid value for qop")
     /\ digest_auth_nostale qop user passwd algorithm randomBytes req
        = Respond (bad_request "Invalid value for qop")
     /\ digest_auth qop user passwd algorithm staleAfter randomBytes req
        = Respond (bad_request "Invalid value for qop"))
  /\ (qop = "auth" \/ qop = "auth-int" ->
      algorithm <> "MD5" -> algorithm <> "SHA-256" -> algorithm <> "SHA-512" ->
      digest_auth_nostale qop user passwd algorithm randomBytes req
      = Respond (bad_request "Invalid value for algorithm")
      /\ digest_auth qop user passwd algorithm staleAfter randomBytes req
         = Respond (bad_request "Invalid value for algorithm")).
Proof.
  unfold digest_auth_md5, digest_auth_nostale, digest_auth. split.
  - intros H1 H2. rewrite (invalid_qop qop H1 H2). cbn [negb]. auto.
  - intros Hq H1 H2 H3. apply valid_qop_spec in Hq. rewrite Hq.
    rewrite (invalid_algorithm algorithm H1 H2 H3). cbn [negb]. auto.
Qed.

Lemma route_validation_first_witness :
  digest_auth_md5 "bogus" "foo" "bar" []
    (get "/digest-auth/bogus/foo/bar" (Some "Digest username=foo"))
  = Respond (bad_request "Invalid value for qop")
  /\ digest_auth "auth" "foo" "bar" "ROT13" "0" [7; 7]
       (get "/digest-auth/auth/foo/bar/ROT13/0" None)
     = Respond (bad_request "Invalid value for algorithm").
Proof.
  split.
  - apply (proj1 (route_validation_first "bogus" "foo" "bar" "MD5" "0" []
             (get "/digest-auth/bogus/foo/bar" (Some "Digest username=foo"))));
      discriminate.
  - apply (proj2 (route_validation_first "auth" "foo" "bar" "ROT13" "0" [7; 7]
             (get "/digest-auth/auth/foo/bar/ROT13/0" None)));
      [left; reflexivity | discriminate ..].
Defined.

(** ** Digest: the hash chain *)

Lemma falsy_Some (s : string) : JS.falsy (Some s) = false <-> s <> "".
Proof.
  unfold JS.falsy. destruct (String.eqb_spec s ""); split; congruence.
Qed.

(** C2 as stated fails: with [qop = auth-int] the value the code hashes for
    HA2 has no entity-body component; it differs from the value the
    specification words, here for a GET with an empty body. *)
Lemma HA2_auth_int_without_body :
  HA2 "SHA-256" (Some "auth-int") "GET" "/digest-auth/auth-int/foo/bar/SHA-256"
  = "ee97352bf0ab2b983a1f338bcf8d82cb6f18d46d64a48b74ee6e0423177227a2"
  /\ Spec.HA2 "SHA-256" (Some "auth-int") "GET"
       "/digest-auth/auth-int/foo/bar/SHA-256" ""
     = "6fd705aa8871b195bf4151b4c35d79e2aa6a14fb78a0b730c3eb0282c6b799ba"
  /\ HA2 "SHA-256" (Some "auth-int") "GET" "/digest-auth/auth-int/foo/bar/SHA-256"
     <> Spec.HA2 "SHA-256" (Some "auth-int") "GET"
          "/digest-auth/auth-int/foo/bar/SHA-256" "".
Proof.
  split; [vm_compute; reflexivity|]. split; [vm_compute; reflexivity|].
  apply String.eqb_neq. vm_compute. reflexivity.
Qed.

(** Both branches of the conditional on [qop] are the same text. *)
Lemma A2_eq (qop : option string) (method uri : string) :
  A2 qop method uri = method +:+ ":" +:+ uri.
Proof. unfold A2. destruct (negb (JS.falsy qop)); reflexivity. Qed.

(** C2, amended: for every [qop] (absent, [auth] or [auth-int]) the HA2
    recomputed during verification is the hash of [method:uri]; the entity
    body has no part in it. *)
Theorem HA2_is_method_uri (algorithm : string) (qop : option string)
  (method uri : string) :
  HA2 algorithm qop method uri = chain_hash algorithm (method +:+ ":" +:+ uri).
Proof. unfold HA2. rewrite A2_eq. reflexivity. Qed.

(** The code and the specification agree on HA2 away from [auth-int]. *)
Lemma HA2_agrees_without_auth_int (algorithm : string) (qop : option string)
  (method uri entityBody : string) :
  qop <> Some "auth-int" ->
  HA2 algorithm qop method uri = Spec.HA2 algorithm qop method uri entityBody.
Proof.
  intros H. unfold HA2, Spec.HA2. rewrite A2_eq.
  rewrite bool_decide_eq_false_2 by assumption. reflexivity.
Qed.

(** With the three required keys present and the user name matching, the
    verdict is the comparison of the supplied response with the recomputed
    one. *)
Lemma checkDigestAuth_complete (authParams : gmap string string)
  (user passwd method uri : string) (qop : option string) (algorithm : string)
  (clientRealm nonce : string) :
  authParams !! "username" = Some user -> user <> "" ->
  authParams !! "realm" = Some clientRealm -> clientRealm <> "" ->
  authParams !! "nonce" = Some nonce -> nonce <> "" ->
  checkDigestAuth authParams user passwd method uri qop algorithm
  = bool_decide
      (authParams !! "response"
       = Some (response algorithm
                 (chain_hash algorithm
                    (user +:+ ":" +:+ clientRealm +:+ ":" +:+ passwd))
                 authParams qop
                 (chain_hash algorithm (method +:+ ":" +:+ uri)))).
Proof.
  intros Hu Hu' Hr Hr' Hn Hn'. unfold checkDigestAuth.
  rewrite Hu, Hr, Hn.
  apply falsy_Some in Hu', Hr', Hn'. rewrite Hu', Hr', Hn'. cbn [orb].
  rewrite bool_decide_eq_true_2 by reflexivity. cbn [negb].
  unfold HA2, HA1, A1. rewrite A2_eq, Hr. cbn [tmpl].
  apply bool_decide_ext. split; congruence.
Qed.

(** Past the validation and with a header the parser accepts, a Digest route
    answers by the verdict of [checkDigestAuth]. *)
Lemma digest_body_parsed (qop user passwd : string)
  (challengeAlgorithm : option string) (algorithm : string) (stale : bool)
  (randomBytes : list Z) (req : Request) (h : string)
  (authParams : gmap string string) :
  authorization req = Some h ->
  parseDigestAuth (Some h) = Some authParams ->
  digest_body qop user passwd challengeAlgorithm algorithm stale randomBytes req
  = digest_answer
      (checkDigestAuth authParams user passwd (method req) (request_uri req)
         (Some qop) algorithm)
      user
      (generateDigestChallenge realm (Some qop) challengeAlgorithm stale
         randomBytes).
Proof.
  intros Hh Hp. unfold digest_body, digest_answer, request_uri. rewrite Hh, Hp.
  assert (JS.falsy (Some h) = false) as ->.
  { unfold parseDigestAuth in Hp. destruct (JS.falsy (Some h)); [|reflexivity].
    discriminate Hp. }
  destruct (checkDigestAuth _ _ _ _ _ _ _); reflexivity.
Qed.

(** The three routes past their validation. *)
Lemma digest_routes_parsed (qop user passwd algorithm staleAfter : string)
  (randomBytes : list Z) (req : Request) (h : string)
  (authParams : gmap string string) :
  qop = "auth" \/ qop = "auth-int" ->
  authorization req = Some h ->
  parseDigestAuth (Some h) = Some authParams ->
  digest_auth_md5 qop user passwd randomBytes req
  = digest_answer
      (checkDigestAuth authParams user passwd (method req) (request_uri req)
         (Some qop) "MD5")
      user (generateDigestChallenge realm (Some qop) None false randomBytes)
  /\ (algorithm = "MD5" \/ algorithm = "SHA-256" \/ algorithm = "SHA-512" ->
      digest_auth_nostale qop user passwd algorithm randomBytes req
      = digest_answer
          (checkDigestAuth authParams user passwd (method req) (request_uri req)
             (Some qop) algorithm)
          user
          (generateDigestChallenge realm (Some qop) (Some algorithm) false
             randomBytes)
      /\ digest_auth qop user passwd algorithm staleAfter randomBytes req
         = digest_answer
             (checkDigestAuth authParams user passwd (method req)
                (request_uri req) (Some qop) algorithm)
             user
             (generateDigestChallenge realm (Some qop) (Some algorithm)
                (shouldBeStale staleAfter) randomBytes)).
Proof.
  intros Hq Hh Hp. apply valid_qop_spec in Hq.
  unfold digest_auth_md5, digest_auth_nostale, digest_auth. rewrite Hq.
  cbn [negb]. split.
  - apply (digest_body_parsed _ _ _ _ _ _ _ _ _ _ Hh Hp).
  - intros Ha. apply valid_algorithm_spec in Ha. rewrite Ha. cbn [negb].
    split; apply (digest_body_parsed _ _ _ _ _ _ _ _ _ _ Hh Hp).
Qed.

(** C3 as stated fails: on [/digest-auth/auth/foo/bar], whose challenge
    names the realm [Fake Realm], a client that hashes and sends the realm
    [Other Realm] is answered 200. *)
Lemma foreign_realm_authenticates :
  realm = "Fake Realm"
  /\ (parseDigestAuth (Some foreign_realm_header) ≫= (.!! "realm"))
     = Some "Other Realm"
  /\ (parseDigestAuth (Some foreign_realm_header) ≫= (.!! "response"))
     = Some (md5Hash
               (md5Hash "foo:Other Realm:bar" +:+ ":obLD1OX2BxgpOktcbX6PoA"
                +:+ ":00000001:0a4f113b:auth:"
                +:+ md5Hash "GET:/digest-auth/auth/foo/bar"))
  /\ digest_auth_md5 "auth" "foo" "bar" [1; 2; 3]
       (get "/digest-auth/auth/foo/bar" (Some foreign_realm_header))
     = Respond (authenticated_user "foo").
Proof. repeat split; vm_compute; reflexivity. Qed.

(** C3, amended: with complete parsed credentials the expected response is
    recomputed over the realm the client supplied in its [Authorization]
    header, whatever that realm is; the realm of the route appears in the
    challenge of a 401 only. So a client that hashes the realm it sends
    authenticates, and one whose response is not the chain over the realm it
    sends is challenged again. This holds on the three Digest routes. *)
Theorem verification_uses_client_realm
  (qop user passwd algorithm staleAfter : string)
  (randomBytes : list Z) (req : Request) (h : string)
  (authParams : gmap string string) (clientRealm nonce : string) :
  qop = "auth" \/ qop = "auth-int" ->
  authorization req = Some h ->
  parseDigestAuth (Some h) = Some authParams ->
  authParams !! "username" = Some user -> user <> "" ->
  authParams !! "realm" = Some clientRealm -> clientRealm <> "" ->
  authParams !! "nonce" = Some nonce -> nonce <> "" ->
  let expected (algorithm : string) :=
    response algorithm
      (chain_hash algorithm (user +:+ ":" +:+ clientRealm +:+ ":" +:+ passwd))
      authParams (Some qop)
      (chain_hash algorithm (method req +:+ ":" +:+ request_uri req)) in
  digest_auth_md5 qop user passwd randomBytes req
  = digest_answer
      (bool_decide (authParams !! "response" = Some (expected "MD5")))
      user (generateDigestChallenge realm (Some qop) None false randomBytes)
  /\ (algorithm = "MD5" \/ algorithm = "SHA-256" \/ algorithm = "SHA-512" ->
      digest_auth_nostale qop user passwd algorithm randomBytes req
      = digest_answer
          (bool_decide (authParams !! "response" = Some (expected algorithm)))
          user
          (generateDigestChallenge realm (Some qop) (Some algorithm) false
             randomBytes)
      /\ digest_auth qop user passwd algorithm staleAfter randomBytes req
         = digest_answer
             (bool_decide (authParams !! "response" = Some (expected algorithm)))
             user
             (generateDigestChallenge realm (Some qop) (Some algorithm)
                (shouldBeStale staleAfter) randomBytes)).
Proof.
  intros Hq Hh Hp Hu Hu' Hr Hr' Hn Hn' expected.
  destruct (digest_routes_parsed qop user passwd algorithm staleAfter
              randomBytes req h authParams Hq Hh Hp) as [H1 H2].
  split.
  - rewrite H1, (checkDigestAuth_complete _ _ _ _ _ _ _ _ _ Hu Hu' Hr Hr' Hn Hn').
    reflexivity.
  - intros Ha. destruct (H2 Ha) as [H3 H4].
    rewrite H3, H4, (checkDigestAuth_complete _ _ _ _ _ _ _ _ _ Hu Hu' Hr Hr' Hn Hn').
    split; reflexivity.
Qed.

Lemma verification_uses_client_realm_witness :
  digest_auth_md5 "auth" "foo" "bar" [1; 2; 3]
    (get "/digest-auth/auth/foo/bar" (Some foreign_realm_header))
  = Respond (authenticated_user "foo").
Proof.
  rewrite (proj1 (verification_uses_client_realm "auth" "foo" "bar" "MD5" "never"
             [1; 2; 3]
             (get "/digest-auth/auth/foo/bar" (Some foreign_realm_header))
             foreign_realm_header foreign_realm_params
             "Other Realm" "obLD1OX2BxgpOktcbX6PoA"
             (or_introl eq_refl) eq_refl eq_refl eq_refl ltac:(discriminate)
             eq_refl ltac:(discriminate) eq_refl ltac:(discriminate))).
  vm_compute. reflexivity.
Defined.

(** ** Strings without a given character *)

Lemma absent_append (c : ascii) (a b : string) :
  absent c (a +:+ b) = absent c a && absent c b.
Proof.
  induction a as [|x a IH]; [reflexivity|].
  cbn [String.append absent]. rewrite IH, andb_assoc. reflexivity.
Qed.

Lemma replaceAll_removes (c : ascii) (s : string) :
  absent c (JS.replaceAll c "" s) = true.
Proof.
  induction s as [|x s IH]; [reflexivity|]. cbn [JS.replaceAll].
  destruct (Ascii.eqb x c) eqn:E; [exact IH|].
  cbn [absent]. rewrite E, IH. reflexivity.
Qed.

Lemma replaceAll_keeps_absent (d c : ascii) (r s : string) :
  absent d r = true -> absent d s = true ->
  absent d (JS.replaceAll c r s) = true.
Proof.
  intros Hr. induction s as [|x s IH]; [reflexivity|].
  cbn [absent JS.replaceAll]. intros [Hx Hs]%andb_true_iff.
  destruct (Ascii.eqb x c).
  - rewrite absent_append, Hr, (IH Hs). reflexivity.
  - cbn [absent]. rewrite Hx, (IH Hs). reflexivity.
Qed.

Lemma absent_of_list (d : ascii) (l : list ascii) :
  Forall (fun c => c <> d) l -> absent d (string_of_list_ascii l) = true.
Proof.
  induction 1 as [|c l Hc _ IH]; [reflexivity|].
  cbn [string_of_list_ascii absent].
  apply Ascii.eqb_neq in Hc. rewrite Hc, IH. reflexivity.
Qed.

(** Every base64 digit is a letter of the alphabet. *)
Lemma digit_in_alphabet (i : Z) :
  In (Base64.digit i) (list_ascii_of_string Base64.alphabet).
Proof.
  unfold Base64.digit.
  destruct (nth_in_or_default (Z.to_nat i)
              (list_ascii_of_string Base64.alphabet) "A"%char) as [H | ->].
  - exact H.
  - left. reflexivity.
Qed.

(** A property of characters checked on each letter of the alphabet. *)
Lemma digit_cases (P : ascii -> bool) (i : Z) :
  forallb P (list_ascii_of_string Base64.alphabet) = true ->
  P (Base64.digit i) = true.
Proof.
  intros H. rewrite forallb_forall in H. apply H, digit_in_alphabet.
Qed.

Lemma digit_not_dquote (i : Z) : Base64.digit i <> dquote.
Proof.
  apply Ascii.eqb_neq, negb_true_iff.
  exact (digit_cases (fun c => negb (Ascii.eqb c dquote)) i eq_refl).
Qed.

Lemma encode_no_dquote (bs : list Z) :
  Forall (fun c => c <> dquote) (Base64.encode bs).
Proof.
  assert (Base64.pad_char <> dquote) as Hp by discriminate.
  assert (forall n bs, (length bs <= n)%nat ->
            Forall (fun c => c <> dquote) (Base64.encode bs)) as H.
  { induction n as [|n IH]; intros l Hl.
    - destruct l; [constructor | cbn in Hl; lia].
    - destruct l as [|a [|b [|c rest]]]; cbn [Base64.encode];
        repeat (constructor; try apply digit_not_dquote; try exact Hp).
      apply IH. cbn in Hl. lia. }
  apply (H (length bs)). lia.
Qed.

Lemma generateNonce_no_equals (randomBytes : list Z) :
  absent "="%char (generateNonce randomBytes) = true.
Proof. apply replaceAll_removes. Qed.

Lemma generateNonce_no_dquote (randomBytes : list Z) :
  absent dquote (generateNonce randomBytes) = true.
Proof.
  unfold generateNonce.
  do 3 (apply replaceAll_keeps_absent; [reflexivity|]).
  apply absent_of_list, encode_no_dquote.
Qed.

(** ** Searching a text around a part that lacks one character of the
    pattern *)

Lemma startsWith_blocked (e d : ascii) (p1 p2 t rest : string) :
  absent e t = true -> absent d p1 = true -> d <> e ->
  JS.startsWith (p1 +:+ String e p2) (t +:+ String d rest) = false.
Proof.
  intros Ht Hd Hde. revert t Ht.
  induction p1 as [|a p1 IH]; intros t Ht.
  - destruct t as [|c t]; cbn [String.append JS.startsWith].
    + apply Ascii.eqb_neq in Hde. rewrite Ascii.eqb_sym, Hde. reflexivity.
    + cbn [absent] in Ht. apply andb_true_iff in Ht as [Hc _].
      rewrite Ascii.eqb_sym. apply negb_true_iff in Hc. rewrite Hc.
      reflexivity.
  - cbn [absent] in Hd. apply andb_true_iff in Hd as [Ha Hd].
    destruct t as [|c t]; cbn [String.append JS.startsWith].
    + apply negb_true_iff in Ha. rewrite Ha. reflexivity.
    + cbn [absent] in Ht. apply andb_true_iff in Ht as [_ Ht].
      rewrite (IH Hd t Ht), andb_false_r. reflexivity.
Qed.

Lemma includes_skips (e d : ascii) (p1 p2 t rest : string) :
  absent e t = true -> absent d p1 = true -> d <> e ->
  JS.includes (p1 +:+ String e p2) (t +:+ String d rest)
  = JS.includes (p1 +:+ String e p2) (String d rest).
Proof.
  intros Ht Hd Hde. induction t as [|c t IH]; [reflexivity|].
  change (String c t +:+ String d rest) with (String c (t +:+ String d rest)).
  cbn [JS.includes].
  change (String c (t +:+ String d rest)) with (String c t +:+ String d rest).
  rewrite (startsWith_blocked e d p1 p2 (String c t) rest Ht Hd Hde).
  cbn [orb]. apply IH. cbn [absent] in Ht.
  apply andb_true_iff in Ht as [_ Ht]. exact Ht.
Qed.

Lemma includes_append_r (p a b : string) :
  JS.includes p b = true -> JS.includes p (a +:+ b) = true.
Proof.
  intros H. induction a as [|c a IH]; [exact H|].
  cbn [String.append JS.includes]. rewrite IH, orb_true_r. reflexivity.
Qed.

(** ** The challenge *)

Lemma append_assoc (a b c : string) : (a +:+ b) +:+ c = a +:+ (b +:+ c).
Proof.
  induction a as [|x a IH]; [reflexivity|].
  cbn [String.append]. rewrite IH. reflexivity.
Qed.

Lemma append_empty_r (a : string) : a +:+ "" = a.
Proof.
  induction a as [|x a IH]; [reflexivity|].
  cbn [String.append]. rewrite IH. reflexivity.
Qed.

(** The header is the fixed part, the nonce, and the optional fields. *)
Lemma challenge_shape (r : string) (qop algorithm : option string)
  (stale : bool) (randomBytes : list Z) :
  generateDigestChallenge r qop algorithm stale randomBytes
  = "Digest realm=" +:+ q +:+ r +:+ q +:+ ", nonce=" +:+ q
    +:+ generateNonce randomBytes +:+ q
    +:+ challenge_fields qop algorithm stale.
Proof.
  unfold generateDigestChallenge, challenge_fields.
  destruct qop as [v|], algorithm as [w|], stale;
    try destruct (JS.falsy (Some v)); try destruct (JS.falsy (Some w));
    rewrite ?append_assoc; cbn [String.append];
    rewrite ?append_assoc, ?append_empty_r; reflexivity.
Qed.

Lemma shouldBeStale_never : shouldBeStale "never" = false.
Proof. reflexivity. Qed.

Lemma shouldBeStale_nonpositive (staleAfter : string) (n : Z) :
  parseInt10 staleAfter = Some n -> n <= 0 -> shouldBeStale staleAfter = true.
Proof.
  intros Hp Hn. unfold shouldBeStale. rewrite Hp.
  destruct (String.eqb_spec staleAfter "never") as [-> | _].
  - discriminate Hp.
  - rewrite bool_decide_eq_false_2 by discriminate.
    apply Z.leb_le in Hn. rewrite Hn. reflexivity.
Qed.

(** On a route with valid parameters the text [stale=true] is in the
    challenge exactly when the flag is set. *)
Lemma challenge_stale_marker (qop algorithm : string) (stale : bool)
  (randomBytes : list Z) :
  qop = "auth" \/ qop = "auth-int" ->
  algorithm = "MD5" \/ algorithm = "SHA-256" \/ algorithm = "SHA-512" ->
  JS.includes "stale=true"
    (generateDigestChallenge realm (Some qop) (Some algorithm) stale randomBytes)
  = stale.
Proof.
  intros Hq Ha. rewrite challenge_shape.
  pose proof (generateNonce_no_equals randomBytes) as Hn.
  set (nonce := generateNonce randomBytes) in *.
  destruct stale.
  - rewrite <- !append_assoc. unfold challenge_fields.
    rewrite <- !append_assoc. apply includes_append_r. reflexivity.
  - unfold realm, q. cbn [String.append JS.includes JS.startsWith].
    cbn.
    destruct Hq as [-> | ->], Ha as [-> | [-> | ->]];
      rewrite (includes_skips "="%char dquote "stale" "true" nonce _ Hn
                 eq_refl ltac:(discriminate));
      reflexivity.
Qed.

(** A 401 of the route with [stale_after] is the challenge of that route,
    and its parameters passed the validation. *)
Lemma digest_auth_401 (qop user passwd algorithm staleAfter : string)
  (randomBytes : list Z) (req : Request) (r : Response) :
  digest_auth qop user passwd algorithm staleAfter randomBytes req = Respond r ->
  status r = 401 ->
  (qop = "auth" \/ qop = "auth-int")
  /\ (algorithm = "MD5" \/ algorithm = "SHA-256" \/ algorithm = "SHA-512")
  /\ r = unauthorized
           (generateDigestChallenge realm (Some qop) (Some algorithm)
              (shouldBeStale staleAfter) randomBytes).
Proof.
  unfold digest_auth.
  destruct (valid_qop qop) eqn:Hq; cbn [negb];
    [|intros [= <-]; discriminate].
  destruct (valid_algorithm algorithm) eqn:Ha; cbn [negb];
    [|intros [= <-]; discriminate].
  apply valid_qop_spec in Hq. apply valid_algorithm_spec in Ha.
  unfold digest_body.
  destruct (JS.falsy (authorization req));
    [intros [= <-] _; auto|].
  destruct (parseDigestAuth (authorization req)) as [authParams|];
    [|intros [= <-] _; auto].
  destruct (checkDigestAuth _ _ _ _ _ _ _); cbn [negb].
  - intros [= <-]. discriminate.
  - intros [= <-] _. auto.
Qed.

(** C7: on the route with [stale_after], every 401 carries a challenge, and
    that challenge contains [stale=true] when [stale_after] parses to a
    number at most 0 (the string [0] among them), and does not contain it
    when [stale_after] is the string [never]. *)
Theorem stale_flag_follows_stale_after
  (qop user passwd algorithm staleAfter : string)
  (randomBytes : list Z) (req : Request) (r : Response) :
  digest_auth qop user passwd algorithm staleAfter randomBytes req = Respond r ->
  status r = 401 ->
  exists challenge,
    header "WWW-Authenticate" r = Some challenge
    /\ ((exists n, parseInt10 staleAfter = Some n /\ n <= 0) ->
        JS.includes "stale=true" challenge = true)
    /\ (staleAfter = "never" -> JS.includes "stale=true" challenge = false).
Proof.
  intros Hr Hs. destruct (digest_auth_401 _ _ _ _ _ _ _ _ Hr Hs) as (Hq & Ha & ->).
  exists (generateDigestChallenge realm (Some qop) (Some algorithm)
            (shouldBeStale staleAfter) randomBytes).
  split; [reflexivity|].
  rewrite (challenge_stale_marker qop algorithm _ randomBytes Hq Ha). split.
  - intros (n & Hp & Hn). exact (shouldBeStale_nonpositive _ _ Hp Hn).
  - intros ->. exact shouldBeStale_never.
Qed.

Lemma stale_flag_follows_stale_after_witness :
  exists challenge,
    header "WWW-Authenticate"
      (unauthorized
         (generateDigestChallenge realm (Some "auth") (Some "MD5") true [1; 2; 3]))
    = Some challenge
    /\ JS.includes "stale=true" challenge = true.
Proof.
  destruct (stale_flag_follows_stale_after "auth" "foo" "bar" "MD5" "0" [1; 2; 3]
              (get "/digest-auth/auth/foo/bar/MD5/0" None)
              (unauthorized
                 (generateDigestChallenge realm (Some "auth") (Some "MD5") true
                    [1; 2; 3]))
              eq_refl eq_refl) as (challenge & Hc & H0 & _).
  exists challenge. split; [exact Hc|].
  apply H0. exists 0. split; [reflexivity | lia].
Defined.

(** ** The scanner *)

Lemma span_append (p : ascii -> bool) (s a b : string) :
  span p s = (a, b) -> s = a +:+ b /\ all p a = true.
Proof.
  revert a b. induction s as [|c s IH]; intros a b.
  - intros [= <- <-]. auto.
  - cbn [span]. destruct (p c) eqn:Hc.
    + destruct (span p s) as [a' b'] eqn:E. intros [= <- <-].
      destruct (IH a' b' eq_refl) as [-> Ha]. cbn [String.append all].
      rewrite Hc, Ha. auto.
    + intros [= <- <-]. auto.
Qed.

Lemma span_stops (p : ascii -> bool) (a : string) (c : ascii) (b : string) :
  all p a = true -> p c = false -> span p (a +:+ String c b) = (a, String c b).
Proof.
  intros Ha Hc. induction a as [|x a IH]; cbn [String.append span].
  - rewrite Hc. reflexivity.
  - cbn [all] in Ha. apply andb_true_iff in Ha as [Hx Ha].
    rewrite Hx, (IH Ha). reflexivity.
Qed.

Lemma span_whole (p : ascii -> bool) (a : string) :
  all p a = true -> span p a = (a, "").
Proof.
  intros Ha. induction a as [|x a IH]; [reflexivity|].
  cbn [all] in Ha. apply andb_true_iff in Ha as [Hx Ha].
  cbn [span]. rewrite Hx, (IH Ha). reflexivity.
Qed.

Lemma absent_all (c : ascii) (s : string) :
  absent c s = all (fun x => negb (Ascii.eqb x c)) s.
Proof.
  induction s as [|x s IH]; [reflexivity|].
  cbn [absent all]. rewrite IH. reflexivity.
Qed.

Lemma until_quote_append (v rest : string) :
  absent dquote v = true ->
  until_quote (v +:+ String dquote rest) = Some (v, rest).
Proof.
  intros Hv. induction v as [|x v IH]; [reflexivity|].
  cbn [absent] in Hv. apply andb_true_iff in Hv as [Hx Hv].
  apply negb_true_iff in Hx. cbn [String.append until_quote].
  rewrite Hx, (IH Hv). reflexivity.
Qed.

Lemma until_quote_split (s v rest : string) :
  until_quote s = Some (v, rest) ->
  s = v +:+ String dquote rest /\ absent dquote v = true.
Proof.
  revert v. induction s as [|x s IH]; intros v; [discriminate|].
  cbn [until_quote]. destruct (Ascii.eqb_spec x dquote) as [-> | Hx].
  - intros [= <- <-]. auto.
  - destruct (until_quote s) as [[a b]|]; [|discriminate].
    intros [= <- <-]. destruct (IH a eq_refl) as [-> Ha].
    cbn [String.append absent]. apply Ascii.eqb_neq in Hx.
    rewrite Hx, Ha. auto.
Qed.

Lemma is_word_equals : is_word "="%char = false.
Proof. reflexivity. Qed.

Lemma wordy_all (k : string) : wordy k = true -> all is_word k = true.
Proof. destruct k; [discriminate | exact id]. Qed.

(** A quoted pair at the start of the text. *)
Lemma match_here_quoted (k v rest : string) :
  wordy k = true -> absent dquote v = true ->
  match_here (k +:+ String "="%char (String dquote (v +:+ String dquote rest)))
  = Some {| group1 := k; group2 := Some v; group3 := None; after := rest |}.
Proof.
  intros Hk Hv. unfold match_here.
  rewrite (span_stops is_word k _ _ (wordy_all k Hk) is_word_equals).
  destruct k as [|k0 k]; [discriminate Hk|].
  cbn [Ascii.eqb Bool.eqb]. rewrite Ascii.eqb_refl.
  rewrite (until_quote_append v rest Hv). reflexivity.
Qed.

(** A bare pair at the start of the text, up to a comma or to the end. *)
Lemma match_here_bare (k v rest : string) :
  wordy k = true -> absent ","%char v = true ->
  JS.startsWith q v = false ->
  rest = "" \/ JS.startsWith "," rest = true ->
  match_here (k +:+ String "="%char (v +:+ rest))
  = Some {| group1 := k; group2 := None; group3 := Some v; after := rest |}.
Proof.
  intros Hk Hv Hq Hrest. unfold match_here.
  rewrite (span_stops is_word k _ _ (wordy_all k Hk) is_word_equals).
  destruct k as [|k0 k]; [discriminate Hk|].
  cbn [Ascii.eqb Bool.eqb].
  assert (bare (String k0 k) (v +:+ rest)
          = {| group1 := String k0 k; group2 := None; group3 := Some v;
               after := rest |}) as Hb.
  { unfold bare. rewrite absent_all in Hv.
    destruct Hrest as [-> | Hr].
    - rewrite append_empty_r, (span_whole _ v Hv). reflexivity.
    - destruct rest as [|c rest]; [discriminate Hr|].
      cbn [JS.startsWith] in Hr. apply andb_true_iff in Hr as [Hc _].
      apply Ascii.eqb_eq in Hc. subst c.
      rewrite (span_stops _ v ","%char rest Hv eq_refl). reflexivity. }
  destruct (v +:+ rest) as [|o r'] eqn:E; [exact (f_equal Some Hb)|].
  destruct (Ascii.eqb o dquote) eqn:Ho; [|exact (f_equal Some Hb)].
  exfalso. destruct v as [|x v].
  - cbn [String.append] in E. subst rest.
    destruct Hrest as [H | H]; [discriminate H|].
    cbn [JS.startsWith] in H. apply andb_true_iff in H as [H _].
    apply Ascii.eqb_eq in H. subst o. discriminate Ho.
  - cbn [String.append] in E. injection E as -> _.
    unfold q in Hq. cbn [JS.startsWith] in Hq.
    rewrite Ascii.eqb_sym, Ho in Hq. discriminate Hq.
Qed.

Lemma exec_here (s : string) (m : RegExpMatch) :
  match_here s = Some m -> exec s = Some m.
Proof. intros H. destruct s; cbn [exec]; rewrite H; reflexivity. Qed.

Lemma match_here_not_word (c : ascii) (s : string) :
  is_word c = false -> match_here (String c s) = None.
Proof. intros H. unfold match_here. cbn [span]. rewrite H. reflexivity. Qed.

Lemma exec_skip (c : ascii) (s : string) :
  is_word c = false -> exec (String c s) = exec s.
Proof.
  intros H. cbn [exec]. rewrite (match_here_not_word c s H). reflexivity.
Qed.

Lemma length_append (a b : string) :
  String.length (a +:+ b) = (String.length a + String.length b)%nat.
Proof.
  induction a as [|x a IH]; [reflexivity|].
  cbn [String.append String.length]. rewrite IH. reflexivity.
Qed.

Lemma bare_sound (k r : string) :
  group1 (bare k r) = k /\ group2 (bare k r) = None
  /\ exists v, group3 (bare k r) = Some v /\ absent ","%char v = true
               /\ r = v +:+ after (bare k r).
Proof.
  unfold bare.
  destruct (span (fun c => negb (Ascii.eqb c ","%char)) r) as [v rest] eqn:E.
  apply span_append in E as [-> Hv]. cbn. repeat split.
  exists v. rewrite absent_all. auto.
Qed.

(** What a match at the start of [s] says about [s]: a key of word
    characters, the equals sign, and either a quoted value without quotes or
    a bare value without commas. *)
Lemma match_here_sound (s : string) (m : RegExpMatch) :
  match_here s = Some m ->
  wordy (group1 m) = true
  /\ ((exists v, group2 m = Some v /\ group3 m = None
                 /\ absent dquote v = true
                 /\ s = group1 m +:+ String "="%char
                          (String dquote (v +:+ String dquote (after m))))
      \/ (exists v, group2 m = None /\ group3 m = Some v
                    /\ absent ","%char v = true
                    /\ s = group1 m +:+ String "="%char (v +:+ after m))).
Proof.
  unfold match_here. destruct (span is_word s) as [a b] eqn:E.
  apply span_append in E as [-> Ha].
  destruct a as [|k0 k]; [discriminate|].
  destruct b as [|e r]; [discriminate|].
  destruct (Ascii.eqb_spec e "="%char) as [-> | _]; [|discriminate].
  assert (forall m, Some (bare (String k0 k) r) = Some m ->
    wordy (group1 m) = true
    /\ ((exists v, group2 m = Some v /\ group3 m = None
                   /\ absent dquote v = true
                   /\ String k0 k +:+ String "="%char r
                      = group1 m +:+ String "="%char
                          (String dquote (v +:+ String dquote (after m))))
        \/ (exists v, group2 m = None /\ group3 m = Some v
                      /\ absent ","%char v = true
                      /\ String k0 k +:+ String "="%char r
                         = group1 m +:+ String "="%char (v +:+ after m))))
    as Hbare.
  { intros m' [= <-].
    destruct (bare_sound (String k0 k) r) as (H1 & H2 & v & H3 & Hv & Hr).
    rewrite H1. split; [exact Ha|]. right. exists v.
    repeat split; try assumption. rewrite Hr at 1. reflexivity. }
  destruct r as [|o r']; [apply Hbare|].
  destruct (Ascii.eqb_spec o dquote) as [-> | _]; [|apply Hbare].
  destruct (until_quote r') as [[v rest]|] eqn:Eq; [|apply Hbare].
  intros [= <-]. cbn [group1 group2 group3 after].
  apply until_quote_split in Eq as [-> Hv].
  split; [exact Ha|]. left. exists v. auto.
Qed.

Lemma match_here_shorter (s : string) (m : RegExpMatch) :
  match_here s = Some m -> (String.length (after m) + 2 <= String.length s)%nat.
Proof.
  intros H. apply match_here_sound in H as [Hk [(v & _ & _ & _ & ->) | (v & _ & _ & _ & ->)]];
    destruct (group1 m) as [|k0 k]; try discriminate Hk;
    rewrite length_append; cbn [String.length]; rewrite ?length_append;
    cbn [String.length]; lia.
Qed.

(** [exec] finds its match at the start of some suffix. *)
Lemma exec_suffix (s : string) (m : RegExpMatch) :
  exec s = Some m -> exists a s', s = a +:+ s' /\ match_here s' = Some m.
Proof.
  induction s as [|c s IH].
  - cbn [exec]. destruct (match_here "") eqn:E; [|discriminate].
    intros [= <-]. exists "", "". auto.
  - cbn [exec]. destruct (match_here (String c s)) eqn:E.
    + intros [= <-]. exists "", (String c s). auto.
    + intros H. destruct (IH H) as (a & s' & -> & Hm).
      exists (String c a), s'. auto.
Qed.

Lemma exec_shorter (s : string) (m : RegExpMatch) :
  exec s = Some m -> (String.length (after m) + 2 <= String.length s)%nat.
Proof.
  intros H. apply exec_suffix in H as (a & s' & -> & Hm).
  apply match_here_shorter in Hm. rewrite length_append. lia.
Qed.

Lemma exec_key_truthy (s : string) (m : RegExpMatch) :
  exec s = Some m -> JS.falsy (Some (group1 m)) = false.
Proof.
  intros H. apply exec_suffix in H as (a & s' & _ & Hm).
  apply match_here_sound in Hm as [Hk _].
  destruct (group1 m); [discriminate Hk | reflexivity].
Qed.

(** ** The loop *)

Lemma parse_loop_pairs (fuel : nat) (s : string) (params : gmap string string) :
  parse_loop fuel s params = fold_left store (pairs fuel s) params.
Proof.
  revert s params. induction fuel as [|fuel IH]; intros s params; [reflexivity|].
  cbn [parse_loop pairs]. destruct (exec s) as [m|] eqn:E; [|reflexivity].
  rewrite (exec_key_truthy s m E). cbn [fold_left]. apply IH.
Qed.

(** Fuel at the length of the text is enough: more changes nothing. *)
Lemma pairs_fuel (f1 f2 : nat) (s : string) :
  (String.length s <= f1)%nat -> (String.length s <= f2)%nat ->
  pairs f1 s = pairs f2 s.
Proof.
  revert f2 s. induction f1 as [|f1 IH]; intros f2 s H1 H2.
  - destruct s; [|cbn in H1; lia]. destruct f2; reflexivity.
  - destruct f2 as [|f2].
    + destruct s; [reflexivity | cbn in H2; lia].
    + cbn [pairs]. destruct (exec s) as [m|] eqn:E; [|reflexivity].
      pose proof (exec_shorter s m E). f_equal. apply IH; lia.
Qed.

Lemma parse_loop_fuel (fuel : nat) (s : string) (params : gmap string string) :
  (String.length s <= fuel)%nat ->
  parse_loop fuel s params = parse_loop (String.length s) s params.
Proof.
  intros H. rewrite !parse_loop_pairs.
  rewrite (pairs_fuel fuel (String.length s) s H (le_n _)). reflexivity.
Qed.

Lemma parse_loop_exec (s : string) (m : RegExpMatch)
  (params : gmap string string) :
  exec s = Some m ->
  parse_loop (String.length s) s params
  = parse_loop (String.length (after m)) (after m)
      (obj_set (group1 m) (pair_value m) params).
Proof.
  intros E. pose proof (exec_shorter s m E) as Hlen.
  destruct (String.length s) as [|n] eqn:En; [lia|].
  cbn [parse_loop]. rewrite E, (exec_key_truthy s m E).
  apply parse_loop_fuel. lia.
Qed.

Lemma parse_loop_done (fuel : nat) (s : string) (params : gmap string string) :
  exec s = None -> parse_loop fuel s params = params.
Proof. intros E. destruct fuel; cbn [parse_loop]; rewrite ?E; reflexivity. Qed.

Lemma pair_value_quoted (k v rest : string) :
  pair_value {| group1 := k; group2 := Some v; group3 := None; after := rest |}
  = v.
Proof. destruct v; reflexivity. Qed.

Lemma pair_value_bare (k v rest : string) :
  pair_value {| group1 := k; group2 := None; group3 := Some v; after := rest |}
  = v.
Proof. destruct v; reflexivity. Qed.

Lemma parse_loop_quoted (k v rest : string) (params : gmap string string) :
  wordy k = true -> absent dquote v = true ->
  parse_loop
    (String.length
       (k +:+ String "="%char (String dquote (v +:+ String dquote rest))))
    (k +:+ String "="%char (String dquote (v +:+ String dquote rest))) params
  = parse_loop (String.length rest) rest (obj_set k v params).
Proof.
  intros Hk Hv.
  rewrite (parse_loop_exec _ _ params (exec_here _ _ (match_here_quoted k v rest Hk Hv))).
  cbn [after group1]. rewrite pair_value_quoted. reflexivity.
Qed.

Lemma pairs_step (fuel : nat) (s : string) (m : RegExpMatch) :
  exec s = Some m ->
  pairs (S fuel) s = (group1 m, pair_value m) :: pairs fuel (after m).
Proof. intros E. cbn [pairs]. rewrite E. reflexivity. Qed.

Lemma parse_loop_skip (c : ascii) (s : string) (params : gmap string string) :
  is_word c = false ->
  parse_loop (String.length (String c s)) (String c s) params
  = parse_loop (String.length s) s params.
Proof.
  intros Hc. rewrite !parse_loop_pairs. f_equal.
  cbn [String.length]. destruct (exec s) as [m|] eqn:E.
  - pose proof (exec_shorter s m E).
    rewrite (pairs_step _ (String c s) m) by (rewrite exec_skip; assumption).
    destruct (String.length s) as [|n] eqn:En; [lia|].
    rewrite (pairs_step n s m E). f_equal. apply pairs_fuel; lia.
  - cbn [pairs]. rewrite (exec_skip c s Hc), E.
    destruct (String.length s); cbn [pairs]; rewrite ?E; reflexivity.
Qed.

Lemma parseDigestAuth_Digest (digestString : string) :
  parseDigestAuth (Some ("Digest " +:+ digestString))
  = Some (parse_loop (String.length digestString) digestString ∅).
Proof. reflexivity. Qed.

(** C5: for a realm without a double quote, a [qop] that is absent, [auth]
    or [auth-int], an algorithm that is absent, [MD5], [SHA-256] or
    [SHA-512], and either value of the stale flag, the header of the
    challenge builder is the fields in the order realm, nonce, [qop] (quoted),
    [algorithm] (bare), [stale=true], the absent ones left out; and the
    Digest parser reads it back as the map of exactly these fields, so that
    the realm, the [qop], the algorithm and the stale flag are recovered. *)
Theorem challenge_round_trip (r : string) (qop algorithm : option string)
  (stale : bool) (randomBytes : list Z) :
  absent dquote r = true ->
  qop = None \/ qop = Some "auth" \/ qop = Some "auth-int" ->
  algorithm = None \/ algorithm = Some "MD5" \/ algorithm = Some "SHA-256"
  \/ algorithm = Some "SHA-512" ->
  generateDigestChallenge r qop algorithm stale randomBytes
  = "Digest realm=" +:+ q +:+ r +:+ q
    +:+ ", nonce=" +:+ q +:+ generateNonce randomBytes +:+ q
    +:+ (match qop with Some v => ", qop=" +:+ q +:+ v +:+ q | None => "" end)
    +:+ (match algorithm with Some v => ", algorithm=" +:+ v | None => "" end)
    +:+ (if stale then ", stale=true" else "")
  /\ exists params,
       parseDigestAuth
         (Some (generateDigestChallenge r qop algorithm stale randomBytes))
       = Some params
       /\ params = challenge_params r (generateNonce randomBytes) qop algorithm stale
       /\ params !! "realm" = Some r
       /\ params !! "qop" = qop
       /\ params !! "algorithm" = algorithm
       /\ params !! "stale" = (if stale then Some "true" else None).
Proof.
  intros Hr Hq Ha. rewrite challenge_shape.
  pose proof (generateNonce_no_dquote randomBytes) as Hn.
  set (nonce := generateNonce randomBytes) in *. clearbody nonce.
  split.
  - destruct Hq as [-> | [-> | ->]], Ha as [-> | [-> | [-> | ->]]]; reflexivity.
  - exists (challenge_params r nonce qop algorithm stale).
    split; [|split; [reflexivity|]].
    + set (fields := challenge_fields qop algorithm stale).
      etransitivity;
        [exact (parseDigestAuth_Digest
                  ("realm" +:+ String "="%char (String dquote (r +:+ String dquote
                     (", nonce=" +:+ q +:+ nonce +:+ q +:+ fields)))))|].
      f_equal.
      rewrite (parse_loop_quoted "realm" r _ ∅ eq_refl Hr).
      cbn [String.append].
      rewrite (parse_loop_skip ","%char _ _ eq_refl).
      rewrite (parse_loop_skip " "%char _ _ eq_refl).
      etransitivity;
        [exact (parse_loop_quoted "nonce" nonce fields _ eq_refl Hn)|].
      subst fields. rewrite parse_loop_pairs.
      destruct Hq as [-> | [-> | ->]], Ha as [-> | [-> | [-> | ->]]], stale;
        match goal with
        | |- context [pairs ?n ?s] =>
            let l := eval vm_compute in (pairs n s) in
            change (pairs n s) with l
        end;
        reflexivity.
    + unfold challenge_params.
      destruct Hq as [-> | [-> | ->]], Ha as [-> | [-> | [-> | ->]]], stale;
        repeat split; simplify_map_eq; reflexivity.
Qed.

Lemma challenge_round_trip_witness :
  parseDigestAuth
    (Some (generateDigestChallenge "Fake Realm" (Some "auth") (Some "MD5") true
             [161; 178; 195; 212; 229; 246; 7; 24; 41; 58; 75; 92; 109; 126; 143; 160]))
  = Some (challenge_params "Fake Realm" "obLD1OX2BxgpOktcbX6PoA" (Some "auth")
            (Some "MD5") true).
Proof.
  destruct (proj2 (challenge_round_trip "Fake Realm" (Some "auth") (Some "MD5")
                     true [161; 178; 195; 212; 229; 246; 7; 24; 41; 58; 75; 92; 109; 126; 143; 160]
                     eq_refl (or_intror (or_introl eq_refl))
                     (or_intror (or_introl eq_refl))))
    as (params & Hp & -> & _).
  exact Hp.
Defined.

(** ** What the parser returns *)

Lemma match_here_key (k b : string) :
  wordy k = true -> match_here (k +:+ String "="%char b) <> None.
Proof.
  intros Hk. unfold match_here.
  rewrite (span_stops is_word k _ _ (wordy_all k Hk) is_word_equals).
  destruct k as [|k0 k]; [discriminate Hk|].
  cbn [Ascii.eqb Bool.eqb].
  destruct b as [|o r]; [discriminate|].
  destruct (Ascii.eqb o dquote); [|discriminate].
  destruct (until_quote r) as [[v rest]|]; discriminate.
Qed.

Lemma exec_finds (a s : string) :
  match_here s <> None -> exec (a +:+ s) <> None.
Proof.
  intros H. induction a as [|x a IH].
  - cbn [String.append]. destruct s; cbn [exec];
      destruct (match_here _); congruence.
  - cbn [String.append exec].
    destruct (match_here (String x (a +:+ s))); [discriminate | exact IH].
Qed.

Lemma wordy_last (k : string) :
  wordy k = true -> exists k' c, k = k' +:+ String c "" /\ is_word c = true.
Proof.
  intros Hk. apply wordy_all in Hk as Ha.
  destruct k as [|x k]; [discriminate Hk|]. clear Hk.
  revert x Ha. induction k as [|y k IH]; intros x Ha.
  - exists "", x. cbn [all] in Ha. apply andb_true_iff in Ha as [Hx _]. auto.
  - cbn [all] in Ha. apply andb_true_iff in Ha as [Hx Ha].
    destruct (IH y Ha) as (k' & c & E & Hc).
    exists (String x k'), c. cbn [String.append]. rewrite <- E. auto.
Qed.

(** No match at all is the absence of a word character before an equals
    sign. *)
Lemma exec_none_iff (s : string) : exec s = None <-> ~ has_pair s.
Proof.
  split.
  - intros E (a & c & b & -> & Hc). revert E. apply exec_finds.
    apply (match_here_key (String c "") b). cbn. rewrite Hc. reflexivity.
  - intros Hno. destruct (exec s) as [m|] eqn:E; [|reflexivity].
    exfalso. apply Hno.
    apply exec_suffix in E as (a & s' & -> & Hm).
    apply match_here_sound in Hm as [Hk Hs'].
    destruct (wordy_last _ Hk) as (k' & c & Ek & Hc).
    destruct Hs' as [(v & _ & _ & _ & ->) | (v & _ & _ & _ & ->)];
      rewrite Ek; eexists (a +:+ k'), c, _;
      (split; [|exact Hc]); rewrite !append_assoc; reflexivity.
Qed.

Lemma exec_prefix (s : string) (m : RegExpMatch) :
  exec s = Some m -> exists pre, s = pre +:+ after m.
Proof.
  intros E. apply exec_suffix in E as (a & s' & -> & Hm).
  apply match_here_sound in Hm as [_ [(v & _ & _ & _ & ->) | (v & _ & _ & _ & ->)]].
  - exists (a +:+ group1 m +:+ String "="%char (String dquote (v +:+ q))).
    unfold q. rewrite !append_assoc. cbn [String.append].
    rewrite !append_assoc. reflexivity.
  - exists (a +:+ group1 m +:+ String "="%char v).
    rewrite !append_assoc. cbn [String.append]. reflexivity.
Qed.

(** Every pair the loop meets stands in the text, bare or quoted. *)
Lemma pairs_sound (fuel : nat) (s k v : string) :
  In (k, v) (pairs fuel s) ->
  wordy k = true
  /\ exists a b,
       s = a +:+ k +:+ "=" +:+ v +:+ b
       \/ s = a +:+ k +:+ "=" +:+ q +:+ v +:+ q +:+ b.
Proof.
  revert s. induction fuel as [|fuel IH]; intros s; [intros []|].
  cbn [pairs]. destruct (exec s) as [m|] eqn:E; [|intros []].
  intros [[= <- <-] | Hin].
  - apply exec_suffix in E as (a & s' & -> & Hm).
    apply match_here_sound in Hm
      as [Hk [(v & H2 & H3 & _ & ->) | (v & H2 & H3 & _ & ->)]];
      (split; [exact Hk|]); exists a, (after m);
      unfold pair_value; rewrite H2, H3.
    + right. destruct v; reflexivity.
    + left. destruct v; reflexivity.
  - destruct (IH _ Hin) as (Hk & a & b & Hs). split; [exact Hk|].
    destruct (exec_prefix s m E) as (pre & ->).
    exists (pre +:+ a), b.
    destruct Hs as [-> | ->]; [left | right]; rewrite !append_assoc; reflexivity.
Qed.

Lemma lookup_obj_set (k' v k : string) (params : gmap string string) :
  k <> "__proto__" ->
  obj_set k' v params !! k = if String.eqb k' k then Some v else params !! k.
Proof.
  intros Hk. unfold obj_set.
  destruct (String.eqb_spec k' "__proto__") as [-> | _].
  - destruct (String.eqb_spec "__proto__" k); congruence.
  - destruct (String.eqb_spec k' k) as [-> | Hne].
    + apply lookup_insert_eq.
    + apply lookup_insert_ne. exact Hne.
Qed.

Lemma lookup_fold_store (l : list (string * string)) (k : string)
  (params : gmap string string) :
  k <> "__proto__" ->
  fold_left store l params !! k
  = match last_value k l with
    | Some v => Some v
    | None => params !! k
    end.
Proof.
  intros Hk. revert params. induction l as [|[k' v] l IH]; intros params.
  - reflexivity.
  - cbn [fold_left last_value]. rewrite IH. unfold store. cbn [fst snd].
    destruct (last_value k l); [reflexivity|].
    rewrite (lookup_obj_set k' v k params Hk).
    destruct (String.eqb k' k); reflexivity.
Qed.

Lemma lookup_fold_store_proto (l : list (string * string))
  (params : gmap string string) :
  fold_left store l params !! "__proto__" = params !! "__proto__".
Proof.
  revert params. induction l as [|[k' v] l IH]; intros params; [reflexivity|].
  cbn [fold_left]. rewrite IH. unfold store, obj_set. cbn [fst snd].
  destruct (String.eqb_spec k' "__proto__") as [-> | Hne]; [reflexivity|].
  apply lookup_insert_ne. exact Hne.
Qed.

(** C8 as stated fails: a header with the prefix and no pair at all is
    answered with the empty map, not with [null]. *)
Lemma no_pair_is_empty_map :
  JS.startsWith "Digest " "Digest invalid" = true
  /\ ~ has_pair (JS.substring 7 "Digest invalid")
  /\ parseDigestAuth (Some "Digest invalid") = Some ∅
  /\ parseDigestAuth (Some "Digest invalid") <> None.
Proof.
  split; [reflexivity|]. split; [|split; [reflexivity | discriminate]].
  apply exec_none_iff. reflexivity.
Qed.

(** ** The scanner against the grammar *)

Lemma starts_pair_match (t : string) : starts_pair t <-> match_here t <> None.
Proof.
  split.
  - intros (k & b & Hk & ->). exact (match_here_key k b Hk).
  - destruct (match_here t) as [m|] eqn:E; [|congruence]. intros _.
    apply match_here_sound in E
      as [Hk [(v & _ & _ & _ & ->) | (v & _ & _ & _ & ->)]];
      exists (group1 m); eexists; (split; [exact Hk | reflexivity]).
Qed.

Lemma span_rest (p : ascii -> bool) (s a b : string) :
  span p s = (a, b) -> b = "" \/ exists c b', b = String c b' /\ p c = false.
Proof.
  revert a b. induction s as [|c s IH]; intros a b.
  - intros [= <- <-]. auto.
  - cbn [span]. destruct (p c) eqn:Hc.
    + destruct (span p s) as [a' b'] eqn:E. intros [= <- <-].
      exact (IH a' b' eq_refl).
    + intros [= <- <-]. right. exists c, s. auto.
Qed.

Lemma until_quote_finds (x y : string) :
  until_quote (x +:+ String dquote y) <> None.
Proof.
  induction x as [|c x IH]; [discriminate|].
  cbn [String.append until_quote]. destruct (Ascii.eqb c dquote); [discriminate|].
  destruct (until_quote (x +:+ String dquote y)) as [[a b]|]; congruence.
Qed.

Lemma opens_quoted_cons (o : ascii) (r : string) :
  opens_quoted (String o r) <-> o = dquote /\ until_quote r <> None.
Proof.
  split.
  - intros (v & rest & E).
    change (q +:+ v +:+ q +:+ rest) with (String dquote (v +:+ String dquote rest))
      in E.
    injection E as -> ->. split; [reflexivity | apply until_quote_finds].
  - intros [-> Hu]. destruct (until_quote r) as [[v rest]|] eqn:E; [|congruence].
    apply until_quote_split in E as [-> _]. exists v, rest. reflexivity.
Qed.

Lemma opens_quoted_empty : ~ opens_quoted "".
Proof. intros (v & rest & E). discriminate E. Qed.

(** What [bare] takes: the text up to the next comma or to the end. *)
Lemma bare_exact (k r : string) :
  group1 (bare k r) = k
  /\ absent ","%char (pair_value (bare k r)) = true
  /\ (after (bare k r) = "" \/ exists r', after (bare k r) = "," +:+ r')
  /\ r = pair_value (bare k r) +:+ after (bare k r).
Proof.
  unfold bare.
  destruct (span (fun c => negb (Ascii.eqb c ","%char)) r) as [v rest] eqn:E.
  pose proof (span_rest _ _ _ _ E) as Hrest.
  apply span_append in E as [-> Hv]. rewrite pair_value_bare.
  cbn [group1 after]. rewrite absent_all. repeat split; try assumption.
  destruct Hrest as [-> | (c & b' & -> & Hc)]; [left; reflexivity|].
  right. apply negb_false_iff, Ascii.eqb_eq in Hc. subst c. exists b'. reflexivity.
Qed.

(** A match at the head of [t], read off the text: the key, and the value of
    the alternative that applies. *)
Lemma match_here_exact (t : string) (m : RegExpMatch) :
  match_here t = Some m ->
  wordy (group1 m) = true
  /\ ((absent dquote (pair_value m) = true
       /\ t = group1 m +:+ "=" +:+ q +:+ pair_value m +:+ q +:+ after m)
      \/ (~ opens_quoted (pair_value m +:+ after m)
          /\ absent ","%char (pair_value m) = true
          /\ (after m = "" \/ exists r, after m = "," +:+ r)
          /\ t = group1 m +:+ "=" +:+ pair_value m +:+ after m)).
Proof.
  unfold match_here. destruct (span is_word t) as [a b] eqn:E.
  apply span_append in E as [-> Ha].
  destruct a as [|k0 k]; [discriminate|].
  destruct b as [|e r]; [discriminate|].
  destruct (Ascii.eqb_spec e "="%char) as [-> | _]; [|discriminate].
  assert (~ opens_quoted r -> forall m, Some (bare (String k0 k) r) = Some m ->
    wordy (group1 m) = true
    /\ ((absent dquote (pair_value m) = true
         /\ String k0 k +:+ String "="%char r
            = group1 m +:+ "=" +:+ q +:+ pair_value m +:+ q +:+ after m)
        \/ (~ opens_quoted (pair_value m +:+ after m)
            /\ absent ","%char (pair_value m) = true
            /\ (after m = "" \/ exists r, after m = "," +:+ r)
            /\ String k0 k +:+ String "="%char r
               = group1 m +:+ "=" +:+ pair_value m +:+ after m))) as Hbare.
  { intros Hnq m' [= <-].
    destruct (bare_exact (String k0 k) r) as (H1 & Hv & Hrest & Hr).
    rewrite H1. split; [exact Ha|]. right.
    rewrite <- Hr. repeat split; assumption. }
  destruct r as [|o r']; [apply Hbare, opens_quoted_empty|].
  destruct (Ascii.eqb_spec o dquote) as [-> | Ho];
    [|apply Hbare; rewrite opens_quoted_cons; tauto].
  destruct (until_quote r') as [[v rest]|] eqn:Eq;
    [|apply Hbare; rewrite opens_quoted_cons, Eq; tauto].
  intros [= <-]. rewrite pair_value_quoted. cbn [group1 after].
  apply until_quote_split in Eq as [-> Hv].
  split; [exact Ha|]. left. split; [exact Hv | reflexivity].
Qed.

Lemma match_here_quoted_text (k v rest : string) :
  wordy k = true -> absent dquote v = true ->
  match_here (k +:+ "=" +:+ q +:+ v +:+ q +:+ rest)
  = Some {| group1 := k; group2 := Some v; group3 := None; after := rest |}.
Proof. exact (match_here_quoted k v rest). Qed.

(** A bare pair at the head of the text, an unclosed quote included. *)
Lemma match_here_bare_gen (k v rest : string) :
  wordy k = true -> absent ","%char v = true ->
  ~ opens_quoted (v +:+ rest) ->
  rest = "" \/ (exists r, rest = "," +:+ r) ->
  match_here (k +:+ "=" +:+ v +:+ rest)
  = Some {| group1 := k; group2 := None; group3 := Some v; after := rest |}.
Proof.
  intros Hk Hv Hnq Hrest. unfold match_here.
  change (k +:+ "=" +:+ v +:+ rest) with (k +:+ String "="%char (v +:+ rest)).
  rewrite (span_stops is_word k _ _ (wordy_all k Hk) is_word_equals).
  destruct k as [|k0 k]; [discriminate Hk|].
  cbn [Ascii.eqb Bool.eqb].
  assert (bare (String k0 k) (v +:+ rest)
          = {| group1 := String k0 k; group2 := None; group3 := Some v;
               after := rest |}) as Hb.
  { unfold bare. rewrite absent_all in Hv.
    destruct Hrest as [-> | (r & ->)].
    - rewrite append_empty_r, (span_whole _ v Hv). reflexivity.
    - change ("," +:+ r) with (String ","%char r).
      rewrite (span_stops _ v ","%char r Hv eq_refl). reflexivity. }
  rewrite <- Hb. revert Hnq. clear Hb.
  destruct (v +:+ rest) as [|o r']; [reflexivity|]. intros Hnq.
  destruct (Ascii.eqb_spec o dquote) as [-> | _]; [|reflexivity].
  destruct (until_quote r') as [[x y]|] eqn:Eq; [|reflexivity].
  exfalso. apply Hnq, opens_quoted_cons. rewrite Eq. split; congruence.
Qed.

(** Nothing starts before the leftmost match, so [exec] passes over what
    stands before it. *)
Lemma exec_leftmost (pre t : string) :
  none_before (String.length pre) (pre +:+ t) -> exec (pre +:+ t) = exec t.
Proof.
  induction pre as [|c pre IH]; intros Hn; [reflexivity|].
  cbn [String.append exec].
  destruct (match_here (String c (pre +:+ t))) as [m|] eqn:E.
  - exfalso. apply (Hn "" (String c (pre +:+ t)) eq_refl).
    + cbn [String.length]. lia.
    + apply starts_pair_match. congruence.
  - apply IH. intros a b Hs Hlen.
    apply (Hn (String c a) b).
    + cbn [String.append]. rewrite Hs. reflexivity.
    + cbn [String.length] in *. lia.
Qed.

Lemma exec_position (s : string) (m : RegExpMatch) :
  exec s = Some m ->
  exists pre t, s = pre +:+ t /\ match_here t = Some m
                /\ none_before (String.length pre) s.
Proof.
  induction s as [|c s IH].
  - cbn [exec]. destruct (match_here "") eqn:E; [|discriminate].
    intros [= <-]. exists "", "". repeat split; [exact E|].
    intros a b _ Hlen. cbn in Hlen. lia.
  - cbn [exec]. destruct (match_here (String c s)) eqn:E.
    + intros [= <-]. exists "", (String c s). repeat split; [exact E|].
      intros a b _ Hlen. cbn in Hlen. lia.
    + intros H. destruct (IH H) as (pre & t & -> & Hm & Hn).
      exists (String c pre), t. repeat split; [exact Hm|].
      intros a b Hs Hlen. destruct a as [|x a].
      * cbn [String.append] in Hs. subst b.
        rewrite starts_pair_match. congruence.
      * cbn [String.append] in Hs. injection Hs as -> Hs.
        apply (Hn a b Hs). cbn [String.length] in Hlen. lia.
Qed.

Lemma exec_none_nowhere (s : string) :
  exec s = None <-> (forall a b, s = a +:+ b -> ~ starts_pair b).
Proof.
  split.
  - intros E a b -> Hsp. revert E. apply exec_finds, starts_pair_match, Hsp.
  - intros Hno. destruct (exec s) as [m|] eqn:E; [|reflexivity].
    exfalso. apply exec_suffix in E as (a & s' & Hs & Hm).
    apply (Hno a s' Hs), starts_pair_match. congruence.
Qed.

(** The loop meets the pairs of the grammar, and nothing else. *)
Lemma grammar_pairs_sound (s : string) (l : list (string * string)) :
  grammar_pairs s l ->
  forall fuel, (String.length s <= fuel)%nat -> pairs fuel s = l.
Proof.
  induction 1 as [s Hno | pre k v rest l Hn Hk Hv _ IH
                 | pre k v rest l Hn Hk Hnq Hv Hrest _ IH]; intros fuel Hfuel.
  - apply exec_none_nowhere in Hno.
    destruct fuel; cbn [pairs]; rewrite ?Hno; reflexivity.
  - pose proof (exec_leftmost pre _ Hn) as E.
    rewrite (exec_here _ _ (match_here_quoted_text k v rest Hk Hv)) in E.
    rewrite !length_append in Hfuel. cbn [String.length] in Hfuel.
    destruct fuel as [|fuel]; [lia|].
    rewrite (pairs_step fuel _ _ E). cbn [group1 after].
    rewrite pair_value_quoted. f_equal. apply IH. lia.
  - pose proof (exec_leftmost pre _ Hn) as E.
    rewrite (exec_here _ _ (match_here_bare_gen k v rest Hk Hv Hnq Hrest)) in E.
    rewrite !length_append in Hfuel. cbn [String.length] in Hfuel.
    destruct fuel as [|fuel]; [lia|].
    rewrite (pairs_step fuel _ _ E). cbn [group1 after].
    rewrite pair_value_bare. f_equal. apply IH. lia.
Qed.

Lemma grammar_pairs_complete (fuel : nat) (s : string) :
  (String.length s <= fuel)%nat -> grammar_pairs s (pairs fuel s).
Proof.
  revert s. induction fuel as [|fuel IH]; intros s Hfuel.
  - destruct s; [|cbn in Hfuel; lia]. cbn [pairs]. apply grammar_end.
    apply exec_none_nowhere. reflexivity.
  - cbn [pairs]. destruct (exec s) as [m|] eqn:E.
    + pose proof (exec_shorter s m E) as Hlen.
      apply exec_position in E as (pre & t & -> & Hm & Hn).
      assert (grammar_pairs (after m) (pairs fuel (after m))) as Hrec
        by (apply IH; lia).
      apply match_here_exact in Hm
        as [Hk [(Hv & ->) | (Hnq & Hv & Hrest & ->)]].
      * apply grammar_quoted; assumption.
      * apply grammar_bare; assumption.
    + apply grammar_end, exec_none_nowhere, E.
Qed.

(** The grammar as the scanner reads it, both ways. *)
Lemma grammar_pairs_iff (s : string) (l : list (string * string)) :
  grammar_pairs s l <-> l = pairs (String.length s) s.
Proof.
  split.
  - intros H. symmetry. exact (grammar_pairs_sound s l H _ (le_n _)).
  - intros ->. apply grammar_pairs_complete, le_n.
Qed.

(** The pairs of a text with a repeated key, a key after a blank, an empty
    value and a value without a key. *)
Example grammar_pairs_of_text :
  grammar_pairs "a=1, b c=, =d, a=2" [("a", "1"); ("c", ""); ("a", "2")].
Proof. apply grammar_pairs_iff. vm_compute. reflexivity. Qed.

(** C8, amended: [null] is returned only for a header that is absent, empty
    or without the prefix [Digest ]. A header with the prefix always yields a
    map. The text after the prefix has one list of matches by the grammar of
    the pattern, taken from left to right: a key is a run of word characters
    directly before an equals sign; its value is the text between double
    quotes when a double quote follows the equals sign and is closed later,
    and otherwise the text up to the next comma or to the end. The map is
    empty when there is no match (no word character stands directly before
    an equals sign); otherwise it sends each matched key to the value of its
    last match and holds nothing else. The key [__proto__] alone is matched
    without being stored. *)
Theorem parseDigestAuth_keeps_matched_pairs (h : string) :
  parseDigestAuth None = None
  /\ (JS.startsWith "Digest " h = false -> parseDigestAuth (Some h) = None)
  /\ (JS.startsWith "Digest " h = true ->
      let digestString := JS.substring 7 h in
      exists matched params,
        grammar_pairs digestString matched
        /\ (forall l, grammar_pairs digestString l -> l = matched)
        /\ parseDigestAuth (Some h) = Some params
        /\ (~ has_pair digestString -> matched = [])
        /\ (matched = [] -> params = ∅)
        /\ (forall k, k <> "__proto__" -> params !! k = last_value k matched)
        /\ params !! "__proto__" = None
        /\ (forall k v, In (k, v) matched ->
             wordy k = true
             /\ exists a b,
                  digestString = a +:+ k +:+ "=" +:+ v +:+ b
                  \/ digestString = a +:+ k +:+ "=" +:+ q +:+ v +:+ q +:+ b)).
Proof.
  split; [reflexivity|]. split.
  - intros Hs. unfold parseDigestAuth. rewrite Hs, orb_true_r. reflexivity.
  - intros Hs digestString.
    exists (pairs (String.length digestString) digestString),
           (parse_loop (String.length digestString) digestString ∅).
    split; [apply grammar_pairs_iff; reflexivity|].
    split; [intros l; apply grammar_pairs_iff|].
    split; [|split; [|split; [|split; [|split; [|intros k v; apply pairs_sound]]]]].
    + unfold parseDigestAuth. rewrite Hs.
      assert (JS.falsy (Some h) = false) as ->.
      { destruct h; [discriminate Hs | reflexivity]. }
      reflexivity.
    + intros Hno. apply exec_none_iff in Hno.
      destruct (String.length digestString); cbn [pairs]; rewrite ?Hno;
        reflexivity.
    + intros Hm. rewrite parse_loop_pairs, Hm. reflexivity.
    + intros k Hk. rewrite parse_loop_pairs, (lookup_fold_store _ k ∅ Hk).
      destruct (last_value k _); [reflexivity|]. apply lookup_empty.
    + rewrite parse_loop_pairs, lookup_fold_store_proto. apply lookup_empty.
Qed.

Lemma parseDigestAuth_keeps_matched_pairs_witness :
  exists params,
    parseDigestAuth (Some "Digest a=1, b c=, =d, a=2") = Some params
    /\ params !! "a" = Some "2" /\ params !! "c" = Some ""
    /\ params !! "b" = None /\ params !! "d" = None.
Proof.
  destruct (proj2 (proj2 (parseDigestAuth_keeps_matched_pairs
                            "Digest a=1, b c=, =d, a=2")) eq_refl)
    as (matched & params & _ & Hu & Hp & _ & _ & Hl & _).
  exists params. split; [exact Hp|].
  rewrite <- (Hu _ grammar_pairs_of_text) in Hl.
  rewrite !Hl by discriminate. repeat split; reflexivity.
Defined.

(** ** Base64: decoding what [btoa] encodes *)

Lemma in_bytes (a : Z) : 0 <= a < 256 -> In a bytes.
Proof.
  intros H. unfold bytes. apply in_map_iff. exists (Z.to_nat a).
  split; [lia|]. apply in_seq. lia.
Qed.

(** A property of bytes checked on each of the 256. *)
Lemma byte_cases (P : Z -> bool) :
  forallb P bytes = true -> forall a, 0 <= a < 256 -> P a = true.
Proof.
  intros H a Ha. rewrite forallb_forall in H. apply H, in_bytes, Ha.
Qed.

Lemma byte_cases2 (P : Z -> Z -> bool) :
  forallb (fun a => forallb (P a) bytes) bytes = true ->
  forall a b, 0 <= a < 256 -> 0 <= b < 256 -> P a b = true.
Proof.
  intros H a b Ha Hb. apply (byte_cases (P a)); [|exact Hb].
  apply (byte_cases (fun a => forallb (P a) bytes) H a Ha).
Qed.

Lemma index_digit1 (a : Z) :
  0 <= a < 256 ->
  Base64.index (Base64.digit (Z.shiftr a 2)) = Some (Z.shiftr a 2)
  /\ Base64.index (Base64.digit (Z.land a 63)) = Some (Z.land a 63)
  /\ Base64.index (Base64.digit (Z.shiftl (Z.land a 3) 4))
     = Some (Z.shiftl (Z.land a 3) 4)
  /\ Base64.index (Base64.digit (Z.shiftl (Z.land a 15) 2))
     = Some (Z.shiftl (Z.land a 15) 2).
Proof.
  intros Ha.
  pose proof (byte_cases
    (fun a => is_index (Z.shiftr a 2) && is_index (Z.land a 63)
              && is_index (Z.shiftl (Z.land a 3) 4)
              && is_index (Z.shiftl (Z.land a 15) 2))
    ltac:(vm_compute; reflexivity) a Ha) as H.
  cbv beta in H. rewrite !andb_true_iff in H. unfold is_index in H.
  destruct H as [[[H1 H2] H3] H4].
  repeat split; eapply bool_decide_eq_true_1; eassumption.
Qed.

Lemma index_digit2 (a b : Z) :
  0 <= a < 256 -> 0 <= b < 256 ->
  Base64.index (Base64.digit (digit2 a b)) = Some (digit2 a b)
  /\ Base64.index (Base64.digit (digit3 a b)) = Some (digit3 a b).
Proof.
  intros Ha Hb.
  pose proof (byte_cases2
    (fun a b => is_index (digit2 a b) && is_index (digit3 a b))
    ltac:(vm_compute; reflexivity) a b Ha Hb) as H.
  cbv beta in H. rewrite !andb_true_iff in H. unfold is_index in H.
  destruct H as [H1 H2].
  split; eapply bool_decide_eq_true_1; eassumption.
Qed.

(** The bytes read back from the digits. *)
Lemma decode_bits1 (a : Z) :
  0 <= a < 256 ->
  Z.lor (Z.shiftl (Z.shiftr a 2) 2) (Z.shiftr (Z.shiftl (Z.land a 3) 4) 4) = a.
Proof.
  intros Ha. apply Z.eqb_eq.
  exact (byte_cases
    (fun a => Z.lor (Z.shiftl (Z.shiftr a 2) 2)
                (Z.shiftr (Z.shiftl (Z.land a 3) 4) 4) =? a)
    ltac:(vm_compute; reflexivity) a Ha).
Qed.

Lemma decode_bits2 (a b : Z) :
  0 <= a < 256 -> 0 <= b < 256 ->
  Z.lor (Z.shiftl (Z.shiftr a 2) 2) (Z.shiftr (digit2 a b) 4) = a
  /\ Z.land (digit2 a b) 15 = Z.shiftr b 4
  /\ Z.lor (Z.shiftl (Z.shiftr a 4) 4) (Z.shiftr (digit3 a b) 2) = a
  /\ Z.lor (Z.shiftl (Z.land (digit3 a b) 3) 6) (Z.land b 63) = b
  /\ Z.lor (Z.shiftl (Z.shiftr a 4) 4)
       (Z.shiftr (Z.shiftl (Z.land a 15) 2) 2) = a.
Proof.
  intros Ha Hb.
  pose proof (byte_cases2
    (fun a b =>
       (Z.lor (Z.shiftl (Z.shiftr a 2) 2) (Z.shiftr (digit2 a b) 4) =? a)
       && (Z.land (digit2 a b) 15 =? Z.shiftr b 4)
       && (Z.lor (Z.shiftl (Z.shiftr a 4) 4) (Z.shiftr (digit3 a b) 2) =? a)
       && (Z.lor (Z.shiftl (Z.land (digit3 a b) 3) 6) (Z.land b 63) =? b)
       && (Z.lor (Z.shiftl (Z.shiftr a 4) 4)
             (Z.shiftr (Z.shiftl (Z.land a 15) 2) 2) =? a))
    ltac:(vm_compute; reflexivity) a b Ha Hb) as H.
  cbv beta in H. rewrite !andb_true_iff, !Z.eqb_eq in H. tauto.
Qed.

Lemma digit_not_pad (i : Z) : Ascii.eqb (Base64.digit i) Base64.pad_char = false.
Proof.
  apply negb_true_iff.
  exact (digit_cases (fun c => negb (Ascii.eqb c Base64.pad_char)) i eq_refl).
Qed.

Lemma digit_not_space (i : Z) : Base64.is_space (Base64.digit i) = false.
Proof.
  apply negb_true_iff.
  exact (digit_cases (fun c => negb (Base64.is_space c)) i eq_refl).
Qed.

(** The text of [encode]: a multiple of four characters, none of them white
    space, and its digits read back as the bytes. *)
Lemma encode_decodes (bs : list Z) :
  Forall is_byte bs ->
  (length (Base64.encode bs) mod 4 = 0)%nat
  /\ List.filter (fun c => negb (Base64.is_space c)) (Base64.encode bs)
     = Base64.encode bs
  /\ exists xs,
       Base64.sextets (Base64.strip_tail (Base64.encode bs)) = Some xs
       /\ Base64.decode xs = bs
       /\ (length (Base64.strip_tail (Base64.encode bs)) mod 4 <> 1)%nat.
Proof.
  assert (forall n bs, (length bs <= n)%nat -> Forall is_byte bs ->
    (length (Base64.encode bs) mod 4 = 0)%nat
    /\ List.filter (fun c => negb (Base64.is_space c)) (Base64.encode bs)
       = Base64.encode bs
    /\ exists xs,
         Base64.sextets (Base64.strip_tail (Base64.encode bs)) = Some xs
         /\ Base64.decode xs = bs
         /\ (length (Base64.strip_tail (Base64.encode bs)) mod 4 <> 1)%nat)
    as H.
  { induction n as [|n IH]; intros l Hl Hb.
    { destruct l; [|cbn in Hl; lia].
      split; [reflexivity|]. split; [reflexivity|].
      exists []. repeat split. cbn. lia. }
    destruct l as [|a [|b [|c rest]]].
    - split; [reflexivity|]. split; [reflexivity|].
      exists []. repeat split. cbn. lia.
    - apply Forall_cons_1 in Hb as [Ha _].
      destruct (index_digit1 a Ha) as (I1 & _ & I3 & _).
      split; [reflexivity|]. split.
      { cbn [Base64.encode List.filter]. rewrite !digit_not_space. reflexivity. }
      exists [Z.shiftr a 2; Z.shiftl (Z.land a 3) 4].
      cbn [Base64.encode Base64.strip_tail]. rewrite !Ascii.eqb_refl.
      cbn [Base64.sextets]. rewrite I1, I3.
      split; [reflexivity|]. split; [|cbn; lia].
      cbn [Base64.decode]. rewrite (decode_bits1 a Ha). reflexivity.
    - apply Forall_cons_1 in Hb as [Ha Hb]. apply Forall_cons_1 in Hb as [Hb _].
      destruct (index_digit1 a Ha) as (I1 & _).
      destruct (index_digit1 b Hb) as (_ & _ & _ & I4).
      destruct (index_digit2 a b Ha Hb) as (I2 & _).
      destruct (decode_bits2 a b Ha Hb) as (B1 & B2 & _).
      destruct (decode_bits2 b b Hb Hb) as (_ & _ & _ & _ & B5).
      split; [reflexivity|]. split.
      { cbn [Base64.encode List.filter]. rewrite !digit_not_space. reflexivity. }
      exists [Z.shiftr a 2; digit2 a b; Z.shiftl (Z.land b 15) 2].
      cbn [Base64.encode Base64.strip_tail].
      rewrite !Ascii.eqb_refl, !digit_not_pad.
      cbn [Base64.sextets]. fold (digit2 a b). rewrite I1, I2, I4.
      split; [reflexivity|]. split; [|cbn; lia].
      cbn [Base64.decode]. rewrite B1, B2, B5. reflexivity.
    - apply Forall_cons_1 in Hb as [Ha Hb]. apply Forall_cons_1 in Hb as [Hb Hc].
      apply Forall_cons_1 in Hc as [Hc Hrest].
      destruct (IH rest ltac:(cbn in Hl; lia) Hrest)
        as (Hlen & Hfilter & xs & Hs & Hd & Hm).
      destruct (index_digit1 a Ha) as (I1 & _).
      destruct (index_digit1 c Hc) as (_ & I4 & _).
      destruct (index_digit2 a b Ha Hb) as (I2 & _).
      destruct (index_digit2 b c Hb Hc) as (_ & I3).
      destruct (decode_bits2 a b Ha Hb) as (B1 & B2 & _).
      destruct (decode_bits2 b c Hb Hc) as (_ & _ & B3 & B4 & _).
      cbn [Base64.encode]. fold (digit2 a b) (digit3 b c).
      split; [|split].
      + cbn [length].
        replace (S (S (S (S (length (Base64.encode rest))))))
          with (length (Base64.encode rest) + 1 * 4)%nat by lia.
        rewrite Nat.Div0.mod_add. exact Hlen.
      + cbn [List.filter]. rewrite !digit_not_space. cbn [negb].
        rewrite Hfilter. reflexivity.
      + exists (Z.shiftr a 2 :: digit2 a b :: digit3 b c :: Z.land c 63 :: xs).
        assert (Base64.strip_tail
                  (Base64.digit (Z.shiftr a 2) :: Base64.digit (digit2 a b)
                   :: Base64.digit (digit3 b c) :: Base64.digit (Z.land c 63)
                   :: Base64.encode rest)
                = Base64.digit (Z.shiftr a 2) :: Base64.digit (digit2 a b)
                  :: Base64.digit (digit3 b c) :: Base64.digit (Z.land c 63)
                  :: Base64.strip_tail (Base64.encode rest)) as ->.
        { destruct rest as [|r1 [|r2 [|r3 rest']]]; cbn [Base64.encode];
            cbn [Base64.strip_tail]; rewrite ?digit_not_pad; reflexivity. }
        cbn [Base64.sextets]. rewrite I1, I2, I3, I4, Hs.
        split; [reflexivity|]. split.
        * cbn [Base64.decode]. rewrite B1, B2, B3, B4, Hd. reflexivity.
        * cbn [length].
          replace (S (S (S (S (length (Base64.strip_tail (Base64.encode rest)))))))
            with (length (Base64.strip_tail (Base64.encode rest)) + 1 * 4)%nat
            by lia.
          rewrite Nat.Div0.mod_add. exact Hm. }
  apply (H (length bs)). lia.
Qed.

Lemma code_range (c : ascii) : is_byte (JS.code c).
Proof.
  unfold is_byte, JS.code. pose proof (N_ascii_bounded c). lia.
Qed.

Lemma chr_code (c : ascii) : JS.chr (JS.code c) = c.
Proof.
  unfold JS.chr, JS.code. rewrite N2Z.id. apply ascii_N_embedding.
Qed.

(** [atob] undoes [btoa]. *)
Lemma atob_btoa (s : string) : Base64.atob (Base64.btoa s) = Some s.
Proof.
  unfold Base64.atob, Base64.btoa.
  rewrite list_ascii_of_string_of_list_ascii.
  destruct (encode_decodes (JS.charCodes s)) as (Hlen & -> & xs & Hs & Hd & Hm).
  { unfold JS.charCodes. apply Forall_map, List.Forall_forall.
    intros c _. apply code_range. }
  unfold Base64.strip_padding. rewrite Hlen. cbn [Nat.eqb].
  destruct (Nat.eqb_spec
              (length (Base64.strip_tail (Base64.encode (JS.charCodes s))) mod 4) 1)
    as [E | _]; [contradiction|].
  rewrite Hs, Hd. f_equal. unfold JS.fromCharCode, JS.charCodes.
  rewrite List.map_map, (List.map_ext _ (fun c => c) chr_code), List.map_id.
  apply string_of_list_ascii_of_string.
Qed.

(** ** Basic: [split] on a credential *)

Lemma split_absent (sep : ascii) (s : string) :
  absent sep s = true -> JS.split sep s = [s].
Proof.
  induction s as [|c s IH]; [reflexivity|].
  cbn [absent JS.split]. intros [Hc Hs]%andb_true_iff.
  apply negb_true_iff in Hc. rewrite Hc, (IH Hs). reflexivity.
Qed.

Lemma split_first (sep : ascii) (u rest : string) :
  absent sep u = true ->
  JS.split sep (u +:+ String sep rest) = u :: JS.split sep rest.
Proof.
  induction u as [|c u IH]; cbn [String.append absent JS.split].
  - intros _. rewrite Ascii.eqb_refl. reflexivity.
  - intros [Hc Hu]%andb_true_iff. apply negb_true_iff in Hc.
    rewrite Hc, (IH Hu). reflexivity.
Qed.

(** The first part of a text with a separator in it is not the text. *)
Lemma split_head_shorter (sep : ascii) (s : string) :
  absent sep s = false -> nth_error (JS.split sep s) 0 <> Some s.
Proof.
  induction s as [|c s IH]; [discriminate|].
  cbn [absent JS.split]. destruct (Ascii.eqb c sep); cbn [negb andb].
  - intros _. discriminate.
  - intros Hs. specialize (IH Hs).
    destruct (JS.split sep s) as [|x xs]; cbn [nth_error] in *.
    + intros [= E]. destruct s; discriminate.
    + intros [= E]. apply IH. rewrite E. reflexivity.
Qed.

(** The route accepts its own pair when neither part has a colon... *)
Lemma basic_auth_accepts_colon_free (user passwd path : string) :
  absent ":"%char user = true -> absent ":"%char passwd = true ->
  basic_auth user passwd
    (get path (Some ("Basic " +:+ Base64.btoa (user +:+ ":" +:+ passwd))))
  = Respond (authenticated_user user).
Proof.
  intros Hu Hp. unfold basic_auth, get. cbn [authorization].
  change (JS.falsy (Some ("Basic " +:+ ?x))) with false.
  change (JS.startsWith "Basic " ("Basic " +:+ ?x)) with true.
  cbn [negb orb].
  change (JS.substring 6 ("Basic " +:+ ?x)) with x.
  rewrite atob_btoa.
  change (user +:+ ":" +:+ passwd) with (user +:+ String ":"%char passwd).
  rewrite (split_first ":"%char user passwd Hu), (split_absent _ passwd Hp).
  cbn [nth_error]. rewrite !bool_decide_eq_true_2 by reflexivity.
  reflexivity.
Qed.

(** ... and rejects it as soon as the password has one. *)
Lemma basic_auth_rejects_colon_password (user passwd path : string) :
  absent ":"%char user = true -> absent ":"%char passwd = false ->
  basic_auth user passwd
    (get path (Some ("Basic " +:+ Base64.btoa (user +:+ ":" +:+ passwd))))
  = Respond (unauthorized basic_challenge).
Proof.
  intros Hu Hp. unfold basic_auth, get. cbn [authorization].
  change (JS.falsy (Some ("Basic " +:+ ?x))) with false.
  change (JS.startsWith "Basic " ("Basic " +:+ ?x)) with true.
  cbn [negb orb].
  change (JS.substring 6 ("Basic " +:+ ?x)) with x.
  rewrite atob_btoa.
  change (user +:+ ":" +:+ passwd) with (user +:+ String ":"%char passwd).
  rewrite (split_first ":"%char user passwd Hu). cbn [nth_error].
  rewrite bool_decide_eq_true_2 by reflexivity. cbn [negb orb].
  rewrite bool_decide_eq_false_2; [reflexivity|].
  pose proof (split_head_shorter ":"%char passwd Hp) as H.
  destruct (JS.split ":"%char passwd); exact H.
Qed.

(** ** Basic: the two inputs where the route fails *)

(** C1, at the input where the code departs from it: the route
    [/basic-auth/foo/a:b] with the credential [foo:a:b] correctly encoded.
    [split] cuts at every colon, the password read back is [a], and the
    answer is 401 where the claim promises 200. *)
Theorem basic_auth_password_with_colon :
  Base64.btoa "foo:a:b" = "Zm9vOmE6Yg=="
  /\ basic_auth "foo" "a:b"
       (get "/basic-auth/foo/a:b" (Some ("Basic " +:+ Base64.btoa "foo:a:b")))
     = Respond (unauthorized basic_challenge).
Proof. split; vm_compute; reflexivity. Qed.

(** The same cut lets a credential with a trailing part through. *)
Example basic_auth_extra_part_accepted :
  basic_auth "foo" "bar"
    (get "/basic-auth/foo/bar" (Some ("Basic " +:+ Base64.btoa "foo:bar:baz")))
  = Respond (authenticated_user "foo").
Proof. vm_compute; reflexivity. Qed.

(** C9, at the input where the code departs from it: a remainder that is not
    base64 makes [atob] throw, and nothing in the handler catches it. *)
Theorem basic_auth_malformed_base64_throws :
  basic_auth "foo" "bar" (get "/basic-auth/foo/bar" (Some "Basic %%%"))
  = Throw InvalidCharacterError.
Proof. vm_compute; reflexivity. Qed.

(** What decides it, for every header. *)
Lemma basic_auth_throws_iff (user passwd : string) (req : Request) :
  basic_auth user passwd req = Throw InvalidCharacterError <->
  exists h, authorization req = Some h /\ JS.startsWith "Basic " h = true
            /\ Base64.atob (JS.substring 6 h) = None.
Proof.
  unfold basic_auth. destruct (authorization req) as [h|] eqn:Eh.
  - destruct (JS.startsWith "Basic " h) eqn:Es.
    + assert (JS.falsy (Some h) = false) as ->.
      { destruct h; [discriminate Es | reflexivity]. }
      cbn [negb orb]. destruct (Base64.atob (JS.substring 6 h)) eqn:Ea.
      * split.
        -- intros H. destruct (_ || _) in H; discriminate H.
        -- intros (h' & [= <-] & _ & H). rewrite Ea in H. discriminate H.
      * split; [|reflexivity]. intros _. exists h. auto.
    + rewrite orb_true_r. split; [discriminate|].
      intros (h' & [= <-] & H & _). congruence.
  - split; [discriminate|]. intros (h' & H & _). discriminate H.
Qed.

(** ** Digest: a client without [nc] and [cnonce], end to end *)

Lemma Z_to_be_bytes (n : nat) (x : Z) :
  Forall is_byte (Sha2.Z_to_be n x).
Proof.
  revert x. induction n as [|n IH]; intros x; cbn [Sha2.Z_to_be].
  - constructor.
  - apply Forall_app. split; [apply IH|]. constructor; [|constructor].
    unfold is_byte. change 255 with (Z.ones 8). rewrite Z.land_ones by lia.
    apply Z.mod_pos_bound. lia.
Qed.

Lemma hash_bytes (P : Sha2.params) (msg : list Z) :
  Forall is_byte (Sha2.hash P msg).
Proof.
  unfold Sha2.hash. induction (Sha2.hash_words P msg) as [|w ws IH].
  - constructor.
  - cbn [flat_map]. apply Forall_app. split; [apply Z_to_be_bytes|exact IH].
Qed.

Lemma hex2_no_dquote (b : Z) : is_byte b -> absent dquote (hex2 b) = true.
Proof.
  intros Hb.
  exact (byte_cases (fun b => absent dquote (hex2 b))
           ltac:(vm_compute; reflexivity) b Hb).
Qed.

Lemma tohex_no_dquote (bs : list Z) :
  Forall is_byte bs -> absent dquote (tohex bs) = true.
Proof.
  unfold tohex. induction 1 as [|b bs Hb _ IH]; [reflexivity|].
  cbn [map String.concat]. destruct (map hex2 bs) as [|h hs] eqn:E.
  - apply hex2_no_dquote, Hb.
  - rewrite !absent_append, (hex2_no_dquote b Hb), IH. reflexivity.
Qed.

Lemma take_absent (c : ascii) (n : nat) (s : string) :
  absent c s = true -> absent c (JS.take n s) = true.
Proof.
  revert s. induction n as [|n IH]; intros s; [reflexivity|].
  destruct s as [|x s]; [reflexivity|]. cbn [absent JS.take].
  intros [Hx Hs]%andb_true_iff. rewrite Hx, (IH s Hs). reflexivity.
Qed.

(** A digest is hexadecimal text: no double quote in it. *)
Lemma chain_hash_no_dquote (algorithm data : string) :
  absent dquote (chain_hash algorithm data) = true.
Proof.
  unfold chain_hash, md5Hash, calculateDigest.
  repeat match goal with
         | |- context [if ?b then _ else _] => destruct b
         end;
    try apply take_absent; apply tohex_no_dquote, hash_bytes.
Qed.

(** The header of such a client reads back as its four fields. *)
Lemma parse_legacy_client_header
  (algorithm user clientRealm passwd nonce method uri : string) :
  absent dquote user = true -> absent dquote clientRealm = true ->
  absent dquote nonce = true ->
  parseDigestAuth
    (Some (legacy_client_header algorithm user clientRealm passwd nonce method uri))
  = Some (<["response" :=
              legacy_response algorithm user clientRealm passwd nonce method uri]>
          (<["nonce" := nonce]>
           (<["realm" := clientRealm]> (<["username" := user]> ∅)))).
Proof.
  intros Hu Hr Hn.
  pose proof (chain_hash_no_dquote algorithm
    (chain_hash algorithm (user +:+ ":" +:+ clientRealm +:+ ":" +:+ passwd)
     +:+ ":" +:+ nonce +:+ ":"
     +:+ chain_hash algorithm (method +:+ ":" +:+ uri))) as Hresp.
  fold (legacy_response algorithm user clientRealm passwd nonce method uri)
    in Hresp.
  unfold legacy_client_header.
  set (resp := legacy_response _ _ _ _ _ _ _) in *. clearbody resp.
  etransitivity;
    [exact (parseDigestAuth_Digest
              ("username" +:+ String "="%char (String dquote (user +:+ String dquote
                 (", realm=" +:+ q +:+ clientRealm +:+ q +:+ ", nonce=" +:+ q
                  +:+ nonce +:+ q +:+ ", response=" +:+ q +:+ resp +:+ q)))))|].
  f_equal.
  rewrite (parse_loop_quoted "username" user _ ∅ eq_refl Hu).
  cbn [String.append].
  rewrite (parse_loop_skip ","%char _ _ eq_refl).
  rewrite (parse_loop_skip " "%char _ _ eq_refl).
  etransitivity;
    [exact (parse_loop_quoted "realm" clientRealm
              (", nonce=" +:+ q +:+ nonce +:+ q +:+ ", response=" +:+ q
               +:+ resp +:+ q) _ eq_refl Hr)|].
  cbn [String.append].
  rewrite (parse_loop_skip ","%char _ _ eq_refl).
  rewrite (parse_loop_skip " "%char _ _ eq_refl).
  etransitivity;
    [exact (parse_loop_quoted "nonce" nonce
              (", response=" +:+ q +:+ resp +:+ q) _ eq_refl Hn)|].
  cbn [String.append].
  rewrite (parse_loop_skip ","%char _ _ eq_refl).
  rewrite (parse_loop_skip " "%char _ _ eq_refl).
  etransitivity;
    [exact (parse_loop_quoted "response" resp "" _ eq_refl Hresp)|].
  reflexivity.
Qed.

(** For every non-empty user name, realm and nonce without a double quote,
    the client that sends them with the legacy response, and no [nc] or
    [cnonce], is answered 200 on the three routes. *)
Lemma legacy_client_authenticates
  (qop user passwd algorithm staleAfter clientRealm nonce meth path query
   : string) (randomBytes : list Z) :
  qop = "auth" \/ qop = "auth-int" ->
  user <> "" -> clientRealm <> "" -> nonce <> "" ->
  absent dquote user = true -> absent dquote clientRealm = true ->
  absent dquote nonce = true ->
  digest_auth_md5 qop user passwd randomBytes
    (legacy_client_request "MD5" user clientRealm passwd nonce meth path query)
  = Respond (authenticated_user user)
  /\ (algorithm = "MD5" \/ algorithm = "SHA-256" \/ algorithm = "SHA-512" ->
      digest_auth_nostale qop user passwd algorithm randomBytes
        (legacy_client_request algorithm user clientRealm passwd nonce meth
           path query)
      = Respond (authenticated_user user)
      /\ digest_auth qop user passwd algorithm staleAfter randomBytes
           (legacy_client_request algorithm user clientRealm passwd nonce meth
              path query)
         = Respond (authenticated_user user)).
Proof.
  intros Hq Hu Hr Hn Du Dr Dn.
  assert (forall alg,
    checkDigestAuth
      (<["response" :=
           legacy_response alg user clientRealm passwd nonce meth
             (path +:+ query)]>
       (<["nonce" := nonce]>
        (<["realm" := clientRealm]> (<["username" := user]> ∅))))
      user passwd meth (path +:+ query) (Some qop) alg = true) as Hc.
  { intros alg.
    set (resp := legacy_response alg user clientRealm passwd nonce meth
                   (path +:+ query)).
    set (authParams := <["response" := resp]>
                         (<["nonce" := nonce]>
                          (<["realm" := clientRealm]>
                           (<["username" := user]> ∅)))).
    assert (authParams !! "username" = Some user) as E1
      by (unfold authParams; simplify_map_eq; reflexivity).
    assert (authParams !! "realm" = Some clientRealm) as E2
      by (unfold authParams; simplify_map_eq; reflexivity).
    assert (authParams !! "nonce" = Some nonce) as E3
      by (unfold authParams; simplify_map_eq; reflexivity).
    assert (authParams !! "response" = Some resp) as E4
      by (unfold authParams; simplify_map_eq; reflexivity).
    assert (authParams !! "nc" = None) as E5
      by (unfold authParams; simplify_map_eq; reflexivity).
    rewrite (checkDigestAuth_complete authParams user passwd meth
               (path +:+ query) (Some qop) alg clientRealm nonce
               E1 Hu E2 Hr E3 Hn).
    apply bool_decide_eq_true_2. rewrite E4. f_equal.
    unfold response, KD_legacy. rewrite E5, E3. cbn [JS.falsy negb tmpl].
    rewrite andb_false_r. reflexivity. }
  split.
  - destruct (digest_routes_parsed qop user passwd "MD5" staleAfter randomBytes
                (legacy_client_request "MD5" user clientRealm passwd nonce meth
                   path query) _ _ Hq eq_refl
                (parse_legacy_client_header "MD5" user clientRealm passwd nonce
                   meth (path +:+ query) Du Dr Dn)) as [H1 _].
    rewrite H1. unfold request_uri. cbn [legacy_client_request method pathname search].
    rewrite Hc. reflexivity.
  - intros Ha.
    destruct (digest_routes_parsed qop user passwd algorithm staleAfter
                randomBytes
                (legacy_client_request algorithm user clientRealm passwd nonce
                   meth path query) _ _ Hq eq_refl
                (parse_legacy_client_header algorithm user clientRealm passwd
                   nonce meth (path +:+ query) Du Dr Dn)) as [_ H2].
    destruct (H2 Ha) as [H3 H4]. rewrite H3, H4. unfold request_uri.
    cbn [legacy_client_request method pathname search].
    rewrite Hc. split; reflexivity.
Qed.

(** ** The parser on the headers clients write *)

Lemma pairs_skip (fuel : nat) (c : ascii) (s : string) :
  is_word c = false -> pairs fuel (String c s) = pairs fuel s.
Proof.
  intros Hc. destruct fuel; [reflexivity|].
  cbn [pairs]. rewrite (exec_skip c s Hc). reflexivity.
Qed.

(** The match on a field at the start of a text, followed by nothing or by
    a comma. *)
Lemma exec_field (f : Field) (rest : string) :
  field_ok f = true ->
  rest = "" \/ JS.startsWith "," rest = true ->
  exists m, exec (render_field f +:+ rest) = Some m
            /\ (group1 m, pair_value m) = field_pair f /\ after m = rest.
Proof.
  intros Hf Hrest. destruct f as [k v | k v]; cbn [field_ok] in Hf.
  - apply andb_true_iff in Hf as [Hk Hv]. eexists. split.
    + apply exec_here. cbn [render_field]. rewrite !append_assoc.
      unfold q. cbn [String.append]. rewrite ?append_assoc.
      cbn [String.append]. apply (match_here_quoted k v rest Hk Hv).
    + cbn [group1 after field_pair]. rewrite pair_value_quoted. auto.
  - apply andb_true_iff in Hf as [Hf Hq]. apply andb_true_iff in Hf as [Hk Hv].
    apply negb_true_iff in Hq. eexists. split.
    + apply exec_here. cbn [render_field]. rewrite !append_assoc.
      cbn [String.append]. rewrite ?append_assoc.
      apply (match_here_bare k v rest Hk Hv Hq Hrest).
    + cbn [group1 after field_pair]. rewrite pair_value_bare. auto.
Qed.

Lemma render_field_length (f : Field) :
  field_ok f = true -> (2 <= String.length (render_field f))%nat.
Proof.
  intros Hf.
  assert (forall k x, wordy k = true ->
            (2 <= String.length (k +:+ "=" +:+ x))%nat) as H.
  { intros k x Hk. destruct k; [discriminate Hk|].
    rewrite length_append. cbn [String.length String.append]. lia. }
  destruct f as [k v | k v]; cbn [field_ok] in Hf; cbn [render_field];
    apply H; repeat (apply andb_true_iff in Hf as [Hf _]); exact Hf.
Qed.

(** The loop meets the fields of a rendered list, each once and in order. *)
Lemma pairs_render_fields (fs : list Field) (fuel : nat) :
  forallb field_ok fs = true ->
  (String.length (render_fields fs) <= fuel)%nat ->
  pairs fuel (render_fields fs) = map field_pair fs.
Proof.
  revert fuel. induction fs as [|f fs IH]; intros fuel Hok Hfuel.
  - destruct fuel; reflexivity.
  - cbn [forallb] in Hok. apply andb_true_iff in Hok as [Hf Hok].
    pose proof (render_field_length f Hf) as Hlen.
    destruct fs as [|f' fs].
    + cbn [render_fields map] in *.
      destruct (exec_field f "" Hf (or_introl eq_refl)) as (m & Hm & Hp & Ha).
      rewrite append_empty_r in Hm.
      destruct fuel as [|fuel]; [lia|].
      rewrite (pairs_step fuel _ m Hm), Hp, Ha.
      destruct fuel; reflexivity.
    + change (render_fields (f :: f' :: fs))
        with (render_field f +:+ ", " +:+ render_fields (f' :: fs)) in *.
      destruct (exec_field f (", " +:+ render_fields (f' :: fs)) Hf
                  (or_intror eq_refl)) as (m & Hm & Hp & Ha).
      rewrite !length_append in Hfuel. cbn [String.length] in Hfuel.
      destruct fuel as [|fuel]; [lia|].
      rewrite (pairs_step fuel _ m Hm), Hp, Ha.
      cbn [String.append]. rewrite !pairs_skip by reflexivity.
      cbn [map]. f_equal. apply IH; [exact Hok | lia].
Qed.

Lemma parseDigestAuth_reads_fields_gen (fs : list Field) :
  forallb field_ok fs = true ->
  exists params,
    parseDigestAuth (Some ("Digest " +:+ render_fields fs)) = Some params
    /\ forall k, k <> "__proto__" ->
         params !! k = last_value k (map field_pair fs).
Proof.
  intros Hok. eexists. split; [apply parseDigestAuth_Digest|].
  intros k Hk. rewrite parse_loop_pairs, (lookup_fold_store _ k ∅ Hk).
  rewrite (pairs_render_fields fs _ Hok (le_n _)).
  destruct (last_value k (map field_pair fs)); [reflexivity | apply lookup_empty].
Qed.

(** A header of well-formed fields, quoted or bare, joined by a comma and a
    space, is read back whole: each key other than [__proto__] has the value
    of its last field, and a key of no field has none. *)
Theorem parseDigestAuth_reads_fields (fs : list Field) :
  forallb field_ok fs = true ->
  exists params,
    parseDigestAuth (Some ("Digest " +:+ render_fields fs)) = Some params
    /\ forall k, k <> "__proto__" ->
         params !! k = last_value k (map field_pair fs).
Proof. exact (parseDigestAuth_reads_fields_gen fs). Qed.

Lemma parseDigestAuth_reads_fields_witness :
  exists params,
    parseDigestAuth
      (Some ("Digest username=" +:+ q +:+ "a,b" +:+ q +:+ ", nc=00000001, qop=auth"))
    = Some params
    /\ params !! "username" = Some "a,b" /\ params !! "nc" = Some "00000001"
    /\ params !! "qop" = Some "auth" /\ params !! "realm" = None.
Proof.
  destruct (parseDigestAuth_reads_fields
              [Quoted "username" "a,b"; Bare "nc" "00000001"; Bare "qop" "auth"]
              eq_refl) as (params & Hp & Hl).
  exists params. split; [exact Hp|].
  rewrite !Hl by discriminate. repeat split; reflexivity.
Defined.

(** ** Digest: a client with [qop], [nc] and [cnonce], end to end *)



Example qop_client_request_text :
  authorization
    (qop_client_request "MD5" "foo" "Fake Realm" "bar" "obLD1OX2BxgpOktcbX6PoA"
       "00000001" "0a4f113b" "auth" "GET" "/digest-auth/auth/foo/bar" "")
  = Some ("Digest username=" +:+ q +:+ "foo" +:+ q
          +:+ ", response=" +:+ q +:+ "31b84d4d5a0cc921ff6e5b087ea506ae" +:+ q
          +:+ ", uri=" +:+ q +:+ "/digest-auth/auth/foo/bar" +:+ q
          +:+ ", nonce=" +:+ q +:+ "obLD1OX2BxgpOktcbX6PoA" +:+ q
          +:+ ", realm=" +:+ q +:+ "Fake Realm" +:+ q
          +:+ ", cnonce=" +:+ q +:+ "0a4f113b" +:+ q
          +:+ ", nc=00000001, qop=auth").
Proof. vm_compute. reflexivity. Qed.

(** ** Digest: when the routes authenticate *)

Lemma falsy_false_inv (o : option string) :
  JS.falsy o = false -> exists s, o = Some s /\ s <> "".
Proof.
  destruct o as [s|]; [|discriminate]. intros H. exists s.
  split; [reflexivity|]. apply falsy_Some, H.
Qed.

(** A positive verdict says the three keys are there, the user name is the
    expected one and the response is the recomputed one. *)
Lemma checkDigestAuth_true (authParams : gmap string string)
  (user passwd method uri : string) (qop : option string) (algorithm : string) :
  checkDigestAuth authParams user passwd method uri qop algorithm = true <->
  exists clientRealm nonce,
    authParams !! "username" = Some user /\ user <> ""
    /\ authParams !! "realm" = Some clientRealm /\ clientRealm <> ""
    /\ authParams !! "nonce" = Some nonce /\ nonce <> ""
    /\ authParams !! "response"
       = Some (response algorithm
                 (chain_hash algorithm
                    (user +:+ ":" +:+ clientRealm +:+ ":" +:+ passwd))
                 authParams qop
                 (chain_hash algorithm (method +:+ ":" +:+ uri))).
Proof.
  split.
  - unfold checkDigestAuth.
    destruct (JS.falsy (authParams !! "username")) eqn:Hu; [discriminate|].
    destruct (JS.falsy (authParams !! "realm")) eqn:Hr; [discriminate|].
    destruct (JS.falsy (authParams !! "nonce")) eqn:Hn; [discriminate|].
    cbn [orb].
    destruct (bool_decide (authParams !! "username" = Some user)) eqn:Hm;
      [|discriminate].
    cbn [negb]. intros Hresp.
    apply bool_decide_eq_true_1 in Hm, Hresp.
    apply falsy_false_inv in Hu as (u & Eu & Hu).
    apply falsy_false_inv in Hr as (r & Er & Hr).
    apply falsy_false_inv in Hn as (n & En & Hn).
    assert (u = user) as -> by congruence.
    exists r, n. repeat split; try assumption.
    rewrite <- Hresp. unfold HA1, HA2, A1. rewrite A2_eq, Er. reflexivity.
  - intros (r & n & Eu & Hu & Er & Hr & En & Hn & Hresp).
    rewrite (checkDigestAuth_complete _ _ _ _ _ _ _ _ _ Eu Hu Er Hr En Hn).
    apply bool_decide_eq_true_2, Hresp.
Qed.

Lemma parse_Some_prefix (h : string) (authParams : gmap string string) :
  parseDigestAuth (Some h) = Some authParams -> JS.startsWith "Digest " h = true.
Proof.
  unfold parseDigestAuth. destruct (JS.startsWith "Digest " h); [reflexivity|].
  rewrite orb_true_r. discriminate.
Qed.

Lemma parse_prefix_Some (h : string) :
  JS.startsWith "Digest " h = true ->
  exists authParams, parseDigestAuth (Some h) = Some authParams.
Proof.
  intros Hs. unfold parseDigestAuth. rewrite Hs.
  assert (JS.falsy (Some h) = false) as ->
    by (destruct h; [discriminate Hs | reflexivity]).
  eexists. reflexivity.
Qed.

(** The body shared by the three handlers answers 200 exactly on verified
    requests, and the challenge otherwise. *)
Lemma digest_body_cases (qop user passwd : string)
  (challengeAlgorithm : option string) (algorithm : string) (stale : bool)
  (randomBytes : list Z) (req : Request) :
  (verified algorithm qop user passwd req
   /\ digest_body qop user passwd challengeAlgorithm algorithm stale randomBytes req
      = Respond (authenticated_user user))
  \/ (~ verified algorithm qop user passwd req
      /\ digest_body qop user passwd challengeAlgorithm algorithm stale
           randomBytes req
         = Respond (unauthorized
             (generateDigestChallenge realm (Some qop) challengeAlgorithm stale
                randomBytes))).
Proof.
  destruct (authorization req) as [h|] eqn:Hh.
  - destruct (parseDigestAuth (Some h)) as [authParams|] eqn:Hp.
    + rewrite (digest_body_parsed _ _ _ _ _ _ _ _ _ _ Hh Hp).
      destruct (checkDigestAuth authParams user passwd (method req)
                  (request_uri req) (Some qop) algorithm) eqn:Hc.
      * left. split; [|reflexivity].
        apply checkDigestAuth_true in Hc
          as (r & n & Eu & Hu & Er & Hr & En & Hn & Hresp).
        exists h, authParams, r, n.
        repeat split; try assumption. exact (parse_Some_prefix h _ Hp).
      * right. split; [|reflexivity].
        intros (h' & ap & r & n & Hh' & _ & Hp' & Eu & Hu & Er & Hr & En & Hn & Hresp).
        rewrite Hh in Hh'. injection Hh' as <-. rewrite Hp in Hp'.
        injection Hp' as <-.
        assert (checkDigestAuth authParams user passwd (method req)
                  (request_uri req) (Some qop) algorithm = true) as Hc'.
        { apply checkDigestAuth_true. exists r, n. repeat split; assumption. }
        congruence.
    + right. split.
      * intros (h' & ap & r & n & Hh' & _ & Hp' & _).
        rewrite Hh in Hh'. injection Hh' as <-. congruence.
      * unfold digest_body. rewrite Hh, Hp.
        destruct (JS.falsy (Some h)); reflexivity.
  - right. split.
    + intros (h' & ap & r & n & Hh' & _). congruence.
    + unfold digest_body. rewrite Hh. reflexivity.
Qed.

(** With valid route parameters, each Digest route answers 200 with the user
    of the route exactly when the request is verified for that user, and
    otherwise 401 with a null body and the challenge built on the drawn
    bytes: a wrong user name, a missing or empty realm or nonce, a missing
    response or another scheme never authenticate. *)
Theorem digest_routes_authenticate_iff_verified
  (qop user passwd algorithm staleAfter : string) (randomBytes : list Z)
  (req : Request) :
  qop = "auth" \/ qop = "auth-int" ->
  decides (verified "MD5" qop user passwd req)
    (digest_auth_md5 qop user passwd randomBytes req) user
    (generateDigestChallenge realm (Some qop) None false randomBytes)
  /\ (algorithm = "MD5" \/ algorithm = "SHA-256" \/ algorithm = "SHA-512" ->
      decides (verified algorithm qop user passwd req)
        (digest_auth_nostale qop user passwd algorithm randomBytes req) user
        (generateDigestChallenge realm (Some qop) (Some algorithm) false
           randomBytes)
      /\ decides (verified algorithm qop user passwd req)
           (digest_auth qop user passwd algorithm staleAfter randomBytes req)
           user
           (generateDigestChallenge realm (Some qop) (Some algorithm)
              (shouldBeStale staleAfter) randomBytes)).
Proof.
  intros Hq. apply valid_qop_spec in Hq.
  unfold digest_auth_md5, digest_auth_nostale, digest_auth, decides.
  rewrite Hq. cbn [negb]. split; [apply digest_body_cases|].
  intros Ha. apply valid_algorithm_spec in Ha. rewrite Ha. cbn [negb].
  split; apply digest_body_cases.
Qed.

Lemma digest_routes_authenticate_iff_verified_witness :
  decides (verified "MD5" "auth" "foo" "bar"
             (get "/digest-auth/auth/foo/bar" (Some "Basic dXNlcjpwYXNz")))
    (digest_auth_md5 "auth" "foo" "bar" [1; 2; 3]
       (get "/digest-auth/auth/foo/bar" (Some "Basic dXNlcjpwYXNz")))
    "foo"
    (generateDigestChallenge realm (Some "auth") None false [1; 2; 3]).
Proof.
  exact (proj1 (digest_routes_authenticate_iff_verified "auth" "foo" "bar" "MD5"
                  "never" [1; 2; 3]
                  (get "/digest-auth/auth/foo/bar" (Some "Basic dXNlcjpwYXNz"))
                  (or_introl eq_refl))).
Defined.

(** The verdict of [checkDigestAuth] is positive exactly when the fields name
    the expected user, a non-empty realm and a non-empty nonce, and the
    response field is the one recomputed over them; with a field missing or
    empty, another user name, or no response field, it is negative. *)
Theorem checkDigestAuth_accepts_iff (authParams : gmap string string)
  (user passwd method uri : string) (qop : option string) (algorithm : string) :
  checkDigestAuth authParams user passwd method uri qop algorithm = true <->
  exists clientRealm nonce,
    authParams !! "username" = Some user /\ user <> ""
    /\ authParams !! "realm" = Some clientRealm /\ clientRealm <> ""
    /\ authParams !! "nonce" = Some nonce /\ nonce <> ""
    /\ authParams !! "response"
       = Some (response algorithm
                 (chain_hash algorithm
                    (user +:+ ":" +:+ clientRealm +:+ ":" +:+ passwd))
                 authParams qop
                 (chain_hash algorithm (method +:+ ":" +:+ uri))).
Proof. apply checkDigestAuth_true. Qed.

(** ** Digest: credentials without [nc] or [cnonce] on the routes *)

(** Without [nc] or without [cnonce] the response is computed in the legacy
    form, whatever the [qop]. *)
Lemma response_legacy (algorithm ha1 : string) (authParams : gmap string string)
  (qop : option string) (ha2 nonce : string) :
  JS.falsy (authParams !! "nc") = true
  \/ JS.falsy (authParams !! "cnonce") = true ->
  authParams !! "nonce" = Some nonce ->
  response algorithm ha1 authParams qop ha2
  = chain_hash algorithm (ha1 +:+ ":" +:+ nonce +:+ ":" +:+ ha2).
Proof.
  intros Hnc Hn. unfold response, KD_legacy. rewrite Hn. cbn [tmpl].
  replace (negb (JS.falsy qop) && negb (JS.falsy (authParams !! "nc"))
           && negb (JS.falsy (authParams !! "cnonce"))) with false;
    [reflexivity|].
  destruct Hnc as [-> | ->]; cbn [negb]; rewrite ?andb_false_r; reflexivity.
Qed.

Lemma checkDigestAuth_legacy (authParams : gmap string string)
  (user passwd : string) (req : Request) (qop : option string)
  (algorithm : string) :
  JS.falsy (authParams !! "nc") = true
  \/ JS.falsy (authParams !! "cnonce") = true ->
  checkDigestAuth authParams user passwd (method req) (request_uri req) qop
    algorithm = true
  <-> legacy_verified algorithm user passwd req authParams.
Proof.
  intros Hnc. rewrite checkDigestAuth_true. unfold legacy_verified, legacy_response.
  split; intros (r & n & Eu & Hu & Er & Hr & En & Hn & Hresp); exists r, n;
    repeat split; try assumption; rewrite Hresp; f_equal.
  - apply (response_legacy _ _ _ _ _ _ Hnc En).
  - symmetry. apply (response_legacy _ _ _ _ _ _ Hnc En).
Qed.

Lemma decides_answer (P : Prop) (isValid : bool) (user challenge : string) :
  (isValid = true <-> P) ->
  decides P (digest_answer isValid user challenge) user challenge.
Proof.
  intros H. unfold decides, digest_answer. destruct isValid.
  - left. split; [apply H|]; reflexivity.
  - right. split; [|reflexivity]. intros HP. apply H in HP. discriminate HP.
Qed.

(** With an empty nonce the header of the legacy client is refused. *)
Lemma checkDigestAuth_empty_nonce (user passwd clientRealm resp method uri
  : string) (qop : option string) (algorithm : string) :
  checkDigestAuth
    (<["response" := resp]>
       (<["nonce" := ""]> (<["realm" := clientRealm]> (<["username" := user]> ∅))))
    user passwd method uri qop algorithm = false.
Proof.
  unfold checkDigestAuth.
  set (authParams := <["response" := resp]> _).
  assert (authParams !! "nonce" = Some "") as ->
    by (unfold authParams; simplify_map_eq; reflexivity).
  cbn [JS.falsy String.eqb]. rewrite orb_true_r. reflexivity.
Qed.

(** C10 as stated fails: the claim lets the client name any nonce, and the
    empty one is refused. The header below has no [nc] and no [cnonce], and
    its response is the legacy form over the empty nonce; the answer is
    401. *)
Lemma legacy_empty_nonce_refused :
  (parseDigestAuth (Some empty_nonce_header) ≫= (.!! "nonce")) = Some ""
  /\ (parseDigestAuth (Some empty_nonce_header) ≫= (.!! "nc")) = None
  /\ (parseDigestAuth (Some empty_nonce_header) ≫= (.!! "cnonce")) = None
  /\ (parseDigestAuth (Some empty_nonce_header) ≫= (.!! "response"))
     = Some (md5Hash
               (md5Hash "foo:Fake Realm:bar" +:+ ":" +:+ "" +:+ ":"
                +:+ md5Hash "GET:/digest-auth/auth/foo/bar"))
  /\ digest_auth_md5 "auth" "foo" "bar" [1; 2; 3]
       (get "/digest-auth/auth/foo/bar" (Some empty_nonce_header))
     = Respond (unauthorized
         (generateDigestChallenge realm (Some "auth") None false [1; 2; 3])).
Proof. repeat split; vm_compute; reflexivity. Qed.

(** C10, amended: on the three Digest routes, each of which verifies with a
    [qop], credentials without [nc] or without [cnonce] (absent or empty)
    are verified against the legacy form, the hash of [HA1:nonce:HA2], and
    against nothing else: the answer is 200 exactly when the fields name the
    user of the route, a non-empty realm and a non-empty nonce, and the
    response in that form, and it is 401 with the challenge otherwise. So a
    client that sends a non-empty user name, realm and nonce of its choice
    and the response computed in the legacy form is answered 200 with no
    [nc] or [cnonce] supplied, and the same client with the empty nonce is
    answered 401. *)
Theorem legacy_form_decides
  (qop user passwd algorithm staleAfter : string) (randomBytes : list Z) :
  qop = "auth" \/ qop = "auth-int" ->
  (forall (req : Request) (h : string) (authParams : gmap string string),
     authorization req = Some h ->
     parseDigestAuth (Some h) = Some authParams ->
     JS.falsy (authParams !! "nc") = true
     \/ JS.falsy (authParams !! "cnonce") = true ->
     (forall alg,
        checkDigestAuth authParams user passwd (method req) (request_uri req)
          (Some qop) alg = true
        <-> legacy_verified alg user passwd req authParams)
     /\ decides (legacy_verified "MD5" user passwd req authParams)
          (digest_auth_md5 qop user passwd randomBytes req) user
          (generateDigestChallenge realm (Some qop) None false randomBytes)
     /\ (algorithm = "MD5" \/ algorithm = "SHA-256" \/ algorithm = "SHA-512" ->
         decides (legacy_verified algorithm user passwd req authParams)
           (digest_auth_nostale qop user passwd algorithm randomBytes req) user
           (generateDigestChallenge realm (Some qop) (Some algorithm) false
              randomBytes)
         /\ decides (legacy_verified algorithm user passwd req authParams)
              (digest_auth qop user passwd algorithm staleAfter randomBytes req)
              user
              (generateDigestChallenge realm (Some qop) (Some algorithm)
                 (shouldBeStale staleAfter) randomBytes)))
  /\ (forall clientRealm nonce meth path query : string,
        user <> "" -> clientRealm <> "" -> nonce <> "" ->
        absent dquote user = true -> absent dquote clientRealm = true ->
        absent dquote nonce = true ->
        digest_auth_md5 qop user passwd randomBytes
          (legacy_client_request "MD5" user clientRealm passwd nonce meth path
             query)
        = Respond (authenticated_user user)
        /\ (algorithm = "MD5" \/ algorithm = "SHA-256" \/ algorithm = "SHA-512" ->
            digest_auth_nostale qop user passwd algorithm randomBytes
              (legacy_client_request algorithm user clientRealm passwd nonce
                 meth path query)
            = Respond (authenticated_user user)
            /\ digest_auth qop user passwd algorithm staleAfter randomBytes
                 (legacy_client_request algorithm user clientRealm passwd nonce
                    meth path query)
               = Respond (authenticated_user user)))
  /\ (forall clientRealm meth path query : string,
        absent dquote user = true -> absent dquote clientRealm = true ->
        digest_auth_md5 qop user passwd randomBytes
          (legacy_client_request "MD5" user clientRealm passwd "" meth path
             query)
        = Respond (unauthorized
            (generateDigestChallenge realm (Some qop) None false randomBytes))
        /\ (algorithm = "MD5" \/ algorithm = "SHA-256" \/ algorithm = "SHA-512" ->
            digest_auth_nostale qop user passwd algorithm randomBytes
              (legacy_client_request algorithm user clientRealm passwd "" meth
                 path query)
            = Respond (unauthorized
                (generateDigestChallenge realm (Some qop) (Some algorithm) false
                   randomBytes))
            /\ digest_auth qop user passwd algorithm staleAfter randomBytes
                 (legacy_client_request algorithm user clientRealm passwd ""
                    meth path query)
               = Respond (unauthorized
                   (generateDigestChallenge realm (Some qop) (Some algorithm)
                      (shouldBeStale staleAfter) randomBytes)))).
Proof.
  intros Hq. split; [|split].
  - intros req h authParams Hh Hp Hnc.
    destruct (digest_routes_parsed qop user passwd algorithm staleAfter
                randomBytes req h authParams Hq Hh Hp) as [H1 H2].
    split; [intros alg; apply checkDigestAuth_legacy, Hnc|]. split.
    + rewrite H1. apply decides_answer, checkDigestAuth_legacy, Hnc.
    + intros Ha. destruct (H2 Ha) as [H3 H4]. rewrite H3, H4.
      split; apply decides_answer, checkDigestAuth_legacy, Hnc.
  - intros clientRealm nonce meth path query Hu Hr Hn Du Dr Dn.
    exact (legacy_client_authenticates qop user passwd algorithm staleAfter
             clientRealm nonce meth path query randomBytes Hq Hu Hr Hn Du Dr Dn).
  - intros clientRealm meth path query Du Dr. split.
    + destruct (digest_routes_parsed qop user passwd "MD5" staleAfter randomBytes
                  (legacy_client_request "MD5" user clientRealm passwd "" meth
                     path query) _ _ Hq eq_refl
                  (parse_legacy_client_header "MD5" user clientRealm passwd ""
                     meth (path +:+ query) Du Dr eq_refl)) as [H1 _].
      rewrite H1, checkDigestAuth_empty_nonce. reflexivity.
    + intros Ha.
      destruct (digest_routes_parsed qop user passwd algorithm staleAfter
                  randomBytes
                  (legacy_client_request algorithm user clientRealm passwd ""
                     meth path query) _ _ Hq eq_refl
                  (parse_legacy_client_header algorithm user clientRealm passwd
                     "" meth (path +:+ query) Du Dr eq_refl)) as [_ H2].
      destruct (H2 Ha) as [H3 H4].
      rewrite H3, H4, checkDigestAuth_empty_nonce. split; reflexivity.
Qed.

Lemma legacy_form_decides_witness :
  digest_auth_md5 "auth" "foo" "bar" [1; 2; 3]
    (get "/digest-auth/auth/foo/bar" (Some legacy_header))
  = Respond (authenticated_user "foo")
  /\ digest_auth "auth-int" "foo" "bar" "SHA-512" "never" [1; 2; 3]
       (legacy_client_request "SHA-512" "foo" "Other Realm" "bar" "n" "GET"
          "/digest-auth/auth-int/foo/bar/SHA-512/never" "")
     = Respond (authenticated_user "foo")
  /\ digest_auth_md5 "auth" "foo" "bar" [1; 2; 3]
       (legacy_client_request "MD5" "foo" "Fake Realm" "bar" "" "GET"
          "/digest-auth/auth/foo/bar" "")
     = Respond (unauthorized
         (generateDigestChallenge realm (Some "auth") None false [1; 2; 3])).
Proof.
  split; [|split].
  - destruct (legacy_form_decides "auth" "foo" "bar" "MD5" "never" [1; 2; 3]
                (or_introl eq_refl)) as (H & _ & _).
    destruct (H (get "/digest-auth/auth/foo/bar" (Some legacy_header))
                legacy_header legacy_params eq_refl eq_refl (or_introl eq_refl))
      as (_ & [[_ H200] | [Hn _]] & _); [exact H200|].
    exfalso. apply Hn. exists "Fake Realm", "obLD1OX2BxgpOktcbX6PoA".
    repeat split; try discriminate; vm_compute; reflexivity.
  - destruct (legacy_form_decides "auth-int" "foo" "bar" "SHA-512" "never"
                [1; 2; 3] (or_intror eq_refl)) as (_ & H & _).
    destruct (H "Other Realm" "n" "GET"
                "/digest-auth/auth-int/foo/bar/SHA-512/never" ""
                ltac:(discriminate) ltac:(discriminate) ltac:(discriminate)
                eq_refl eq_refl eq_refl) as (_ & H2).
    exact (proj2 (H2 (or_intror (or_intror eq_refl)))).
  - destruct (legacy_form_decides "auth" "foo" "bar" "MD5" "never" [1; 2; 3]
                (or_introl eq_refl)) as (_ & _ & H).
    exact (proj1 (H "Fake Realm" "GET" "/digest-auth/auth/foo/bar" ""
                    eq_refl eq_refl)).
Defined.

(** ** Digest: the routes against each other *)

Lemma shouldBeStale_iff (staleAfter : string) :
  shouldBeStale staleAfter = true <->
  exists n, parseInt10 staleAfter = Some n /\ n <= 0.
Proof.
  split.
  - unfold shouldBeStale. destruct (parseInt10 staleAfter) as [n|].
    + intros H. apply andb_true_iff in H as [_ H]. apply Z.leb_le in H.
      exists n. auto.
    + rewrite andb_false_r. discriminate.
  - intros (n & Hp & Hn). exact (shouldBeStale_nonpositive _ _ Hp Hn).
Qed.

(** The route with [stale_after] answers as the route without it whenever
    [stale_after] does not parse to a number at most 0 (the string [never], a
    positive number, a text without digits); and the route without an
    algorithm answers as the route with [MD5], except that its challenge
    lacks the field [algorithm=MD5]. *)
Theorem digest_routes_agree (qop user passwd algorithm staleAfter : string)
  (randomBytes : list Z) (req : Request) :
  ((forall n, parseInt10 staleAfter = Some n -> 0 < n) ->
   digest_auth qop user passwd algorithm staleAfter randomBytes req
   = digest_auth_nostale qop user passwd algorithm randomBytes req)
  /\ status_of (digest_auth_nostale qop user passwd "MD5" randomBytes req)
     = status_of (digest_auth_md5 qop user passwd randomBytes req)
  /\ (status_of (digest_auth_md5 qop user passwd randomBytes req) <> Some 401 ->
      digest_auth_nostale qop user passwd "MD5" randomBytes req
      = digest_auth_md5 qop user passwd randomBytes req)
  /\ (forall challenge,
        challenge_of (digest_auth_md5 qop user passwd randomBytes req)
        = Some challenge ->
        challenge_of (digest_auth_nostale qop user passwd "MD5" randomBytes req)
        = Some (challenge +:+ ", algorithm=MD5")).
Proof.
  split; [|split; [|split]].
  - intros Hn. assert (shouldBeStale staleAfter = false) as Hs.
    { destruct (shouldBeStale staleAfter) eqn:E; [|reflexivity].
      apply shouldBeStale_iff in E as (n & Hp & Hle).
      specialize (Hn n Hp). lia. }
    unfold digest_auth, digest_auth_nostale. rewrite Hs. reflexivity.
  - unfold digest_auth_nostale, digest_auth_md5.
    destruct (valid_qop qop); cbn [negb valid_algorithm String.eqb Ascii.eqb
      Bool.eqb orb]; [|reflexivity].
    unfold digest_body. destruct (JS.falsy (authorization req)); [reflexivity|].
    destruct (parseDigestAuth (authorization req)); [|reflexivity].
    destruct (checkDigestAuth _ _ _ _ _ _ _); reflexivity.
  - unfold digest_auth_nostale, digest_auth_md5.
    destruct (valid_qop qop); cbn [negb valid_algorithm String.eqb Ascii.eqb
      Bool.eqb orb]; [|reflexivity].
    unfold digest_body. destruct (JS.falsy (authorization req));
      [intros H; exfalso; apply H; reflexivity|].
    destruct (parseDigestAuth (authorization req));
      [|intros H; exfalso; apply H; reflexivity].
    destruct (checkDigestAuth _ _ _ _ _ _ _); cbn [negb];
      [reflexivity | intros H; exfalso; apply H; reflexivity].
  - intros challenge. unfold digest_auth_nostale, digest_auth_md5.
    destruct (valid_qop qop); cbn [negb valid_algorithm String.eqb Ascii.eqb
      Bool.eqb orb]; [|discriminate].
    assert (generateDigestChallenge realm (Some qop) (Some "MD5") false
              randomBytes
            = generateDigestChallenge realm (Some qop) None false randomBytes
              +:+ ", algorithm=MD5") as Hch.
    { unfold generateDigestChallenge.
      destruct (JS.falsy (Some qop)); reflexivity. }
    unfold digest_body. rewrite Hch.
    destruct (JS.falsy (authorization req)).
    + cbn. intros [= <-]. reflexivity.
    + destruct (parseDigestAuth (authorization req)).
      * destruct (checkDigestAuth _ _ _ _ _ _ _); cbn; [discriminate|].
        intros [= <-]. reflexivity.
      * cbn. intros [= <-]. reflexivity.
Qed.

Lemma digest_routes_agree_witness :
  digest_auth "auth" "foo" "bar" "SHA-256" "5" [1; 2; 3]
    (get "/digest-auth/auth/foo/bar/SHA-256/5" None)
  = digest_auth_nostale "auth" "foo" "bar" "SHA-256" [1; 2; 3]
      (get "/digest-auth/auth/foo/bar/SHA-256/5" None).
Proof.
  apply (proj1 (digest_routes_agree "auth" "foo" "bar" "SHA-256" "5" [1; 2; 3]
                  (get "/digest-auth/auth/foo/bar/SHA-256/5" None))).
  intros n H. vm_compute in H. injection H as <-. lia.
Defined.

(** On the route with [stale_after], the challenge of a 401 contains
    [stale=true] exactly when [stale_after] parses, as [parseInt] reads it
    (white space, a sign, then digits, whatever follows), to a number at
    most 0: a positive number or a text without digits never marks it. *)
Theorem stale_exactly_when_nonpositive
  (qop user passwd algorithm staleAfter : string)
  (randomBytes : list Z) (req : Request) (r : Response) :
  digest_auth qop user passwd algorithm staleAfter randomBytes req = Respond r ->
  status r = 401 ->
  exists challenge,
    header "WWW-Authenticate" r = Some challenge
    /\ (JS.includes "stale=true" challenge = true <->
        exists n, parseInt10 staleAfter = Some n /\ n <= 0).
Proof.
  intros Hr Hs. destruct (digest_auth_401 _ _ _ _ _ _ _ _ Hr Hs) as (Hq & Ha & ->).
  exists (generateDigestChallenge realm (Some qop) (Some algorithm)
            (shouldBeStale staleAfter) randomBytes).
  split; [reflexivity|].
  rewrite (challenge_stale_marker qop algorithm _ randomBytes Hq Ha).
  apply shouldBeStale_iff.
Qed.

Lemma stale_exactly_when_nonpositive_witness :
  exists challenge,
    header "WWW-Authenticate"
      (unauthorized
         (generateDigestChallenge realm (Some "auth") (Some "MD5") false [1; 2; 3]))
    = Some challenge
    /\ JS.includes "stale=true" challenge = false.
Proof.
  destruct (stale_exactly_when_nonpositive "auth" "foo" "bar" "MD5" "300"
              [1; 2; 3] (get "/digest-auth/auth/foo/bar/MD5/300" None)
              (unauthorized
                 (generateDigestChallenge realm (Some "auth") (Some "MD5") false
                    [1; 2; 3]))
              eq_refl eq_refl) as (challenge & Hc & Hiff).
  exists challenge. split; [exact Hc|].
  destruct (JS.includes "stale=true" challenge); [|reflexivity].
  destruct (proj1 Hiff eq_refl) as (n & Hp & Hn).
  vm_compute in Hp. injection Hp as <-. lia.
Defined.

(** ** The nonce *)

Lemma replaces_cons (c : ascii) (s : string) :
  JS.replaceAll "="%char ""
    (JS.replaceAll "/"%char "_" (JS.replaceAll "+"%char "-" (String c s)))
  = (if not_pad c then String (to_url c) else fun x => x)
      (JS.replaceAll "="%char ""
         (JS.replaceAll "/"%char "_" (JS.replaceAll "+"%char "-" s))).
Proof.
  unfold not_pad, to_url, Base64.pad_char. cbn [JS.replaceAll].
  destruct (Ascii.eqb_spec c "+"%char) as [-> | H1]; [reflexivity|].
  cbn [JS.replaceAll].
  destruct (Ascii.eqb_spec c "/"%char) as [-> | H2]; [reflexivity|].
  cbn [JS.replaceAll].
  destruct (Ascii.eqb_spec c "="%char) as [-> | H3]; reflexivity.
Qed.

(** The nonce is the digits of the base64 text, [+] and [/] exchanged for
    [-] and [_], the padding left out. *)
Lemma nonce_as_digits (randomBytes : list Z) :
  generateNonce randomBytes
  = string_of_list_ascii
      (map to_url
         (List.filter not_pad (Base64.encode (map as_byte randomBytes)))).
Proof.
  unfold generateNonce, Base64.btoa, JS.charCodes, JS.fromCharCode.
  rewrite list_ascii_of_string_of_list_ascii, List.map_map.
  fold as_byte.
  change (map (fun x => JS.code (JS.chr x)) randomBytes)
    with (map as_byte randomBytes).
  induction (Base64.encode (map as_byte randomBytes)) as [|c l IH];
    [reflexivity|].
  cbn [string_of_list_ascii]. rewrite replaces_cons, IH.
  cbn [List.filter]. destruct (not_pad c); reflexivity.
Qed.

Lemma encode_forall (P : ascii -> Prop) (bs : list Z) :
  P Base64.pad_char -> (forall i, P (Base64.digit i)) ->
  Forall P (Base64.encode bs).
Proof.
  intros Hp Hd.
  assert (forall n bs, (length bs <= n)%nat -> Forall P (Base64.encode bs)) as H.
  { induction n as [|n IH]; intros l Hl.
    - destruct l; [constructor | cbn in Hl; lia].
    - destruct l as [|a [|b [|c rest]]]; cbn [Base64.encode];
        repeat (constructor; try apply Hd; try exact Hp).
      apply IH. cbn in Hl. lia. }
  apply (H (length bs)). lia.
Qed.

Lemma digits_in_alphabet (bs : list Z) :
  Forall (fun c => In c (list_ascii_of_string Base64.alphabet))
    (List.filter not_pad (Base64.encode bs)).
Proof.
  apply List.Forall_forall. intros c [Hc Hn]%filter_In.
  pose proof (encode_forall
    (fun c => c = Base64.pad_char \/ In c (list_ascii_of_string Base64.alphabet))
    bs (or_introl eq_refl) (fun i => or_intror (digit_in_alphabet i))) as H.
  rewrite List.Forall_forall in H. destruct (H c Hc) as [-> | Hin].
  - discriminate Hn.
  - exact Hin.
Qed.

Lemma alphabet_cases (P : ascii -> bool) (c : ascii) :
  forallb P (list_ascii_of_string Base64.alphabet) = true ->
  In c (list_ascii_of_string Base64.alphabet) -> P c = true.
Proof. intros H Hc. rewrite forallb_forall in H. apply H, Hc. Qed.

Lemma all_of_list (P : ascii -> bool) (l : list ascii) :
  Forall (fun c => P c = true) l -> all P (string_of_list_ascii l) = true.
Proof.
  induction 1 as [|c l Hc _ IH]; [reflexivity|].
  cbn [string_of_list_ascii all]. rewrite Hc, IH. reflexivity.
Qed.

Lemma length_of_list (l : list ascii) :
  String.length (string_of_list_ascii l) = length l.
Proof. induction l as [|c l IH]; [reflexivity|]. cbn. rewrite IH. reflexivity. Qed.

Lemma not_pad_digit (i : Z) : not_pad (Base64.digit i) = true.
Proof. unfold not_pad. rewrite digit_not_pad. reflexivity. Qed.

Lemma not_pad_pad : not_pad Base64.pad_char = false.
Proof. reflexivity. Qed.

Lemma digits_count (bs : list Z) :
  length (List.filter not_pad (Base64.encode bs))
  = ((4 * length bs + 2) / 3)%nat.
Proof.
  assert (forall n bs, (length bs <= n)%nat ->
            length (List.filter not_pad (Base64.encode bs))
            = ((4 * length bs + 2) / 3)%nat) as H.
  { induction n as [|n IH]; intros l Hl.
    - destruct l; [reflexivity | cbn in Hl; lia].
    - destruct l as [|a [|b [|c rest]]]; cbn [Base64.encode List.filter];
        rewrite ?not_pad_digit, ?not_pad_pad; try reflexivity.
      cbn [length]. rewrite (IH rest) by (cbn in Hl; lia).
      replace (4 * S (S (S (length rest))) + 2)%nat
        with (4 * 3 + (4 * length rest + 2))%nat by lia.
      rewrite Nat.div_add_l by lia. reflexivity. }
  apply (H (length bs)). lia.
Qed.

(** The nonce holds only letters, digits, [-] and [_], so neither the
    padding nor a character that a quoted header value or a URL would need
    to escape; [n] drawn bytes give the whole part of [(4 n + 2) / 3]
    characters, 22 for the 16 bytes the code draws. *)
Theorem generateNonce_url_safe (randomBytes : list Z) :
  all url_safe (generateNonce randomBytes) = true
  /\ String.length (generateNonce randomBytes)
     = ((4 * length randomBytes + 2) / 3)%nat
  /\ (length randomBytes = 16%nat ->
      String.length (generateNonce randomBytes) = 22%nat).
Proof.
  rewrite nonce_as_digits, length_of_list, length_map, digits_count, length_map.
  split; [|split; [reflexivity | intros ->; reflexivity]].
  apply all_of_list, Forall_map.
  eapply Forall_impl; [apply digits_in_alphabet|].
  intros c Hc. cbv beta.
  exact (alphabet_cases (fun c => url_safe (to_url c)) c eq_refl Hc).
Qed.

Lemma generateNonce_url_safe_witness :
  String.length
    (generateNonce [161; 178; 195; 212; 229; 246; 7; 24; 41; 58; 75; 92; 109;
                    126; 143; 160]) = 22%nat.
Proof.
  exact (proj2 (proj2 (generateNonce_url_safe
    [161; 178; 195; 212; 229; 246; 7; 24; 41; 58; 75; 92; 109; 126; 143; 160]))
    eq_refl).
Defined.

Lemma filter_is_strip (bs : list Z) :
  List.filter not_pad (Base64.encode bs) = Base64.strip_tail (Base64.encode bs).
Proof.
  assert (forall n bs, (length bs <= n)%nat ->
            List.filter not_pad (Base64.encode bs)
            = Base64.strip_tail (Base64.encode bs)) as H.
  { induction n as [|n IH]; intros l Hl.
    - destruct l; [reflexivity | cbn in Hl; lia].
    - destruct l as [|a [|b [|c rest]]];
        cbn [Base64.encode List.filter Base64.strip_tail];
        rewrite ?not_pad_digit, ?not_pad_pad, ?Ascii.eqb_refl, ?digit_not_pad;
        try reflexivity.
      rewrite (IH rest) by (cbn in Hl; lia).
      destruct rest as [|r1 [|r2 [|r3 rest']]]; cbn [Base64.encode];
        cbn [Base64.strip_tail]; rewrite ?digit_not_pad; reflexivity. }
  apply (H (length bs)). lia.
Qed.

Lemma to_url_injective (c d : ascii) :
  In c (list_ascii_of_string Base64.alphabet) ->
  In d (list_ascii_of_string Base64.alphabet) ->
  to_url c = to_url d -> c = d.
Proof.
  intros Hc Hd E.
  pose proof (alphabet_cases
    (fun c => forallb
                (fun d => implb (Ascii.eqb (to_url c) (to_url d)) (Ascii.eqb c d))
                (list_ascii_of_string Base64.alphabet))
    c eq_refl Hc) as H.
  cbv beta in H. rewrite forallb_forall in H. specialize (H d Hd).
  rewrite E, Ascii.eqb_refl in H. apply Ascii.eqb_eq, H.
Qed.

Lemma map_to_url_injective (l l' : list ascii) :
  Forall (fun c => In c (list_ascii_of_string Base64.alphabet)) l ->
  Forall (fun c => In c (list_ascii_of_string Base64.alphabet)) l' ->
  map to_url l = map to_url l' -> l = l'.
Proof.
  intros Hl. revert l'. induction Hl as [|c l Hc _ IH]; intros l' Hl' E.
  - destruct l'; [reflexivity | discriminate E].
  - destruct Hl' as [|d l' Hd Hl']; [discriminate E|].
    cbn [map] in E. injection E as E1 E2.
    rewrite (to_url_injective c d Hc Hd E1), (IH l' Hl' E2). reflexivity.
Qed.

Lemma as_byte_id (z : Z) : is_byte z -> as_byte z = z.
Proof.
  intros Hz. unfold as_byte, JS.code, JS.chr, is_byte in *.
  rewrite N_ascii_embedding by lia. lia.
Qed.

Lemma map_as_byte_id (bs : list Z) : Forall is_byte bs -> map as_byte bs = bs.
Proof.
  induction 1 as [|z bs Hz _ IH]; [reflexivity|].
  cbn [map]. rewrite (as_byte_id z Hz), IH. reflexivity.
Qed.

Lemma append_cancel_l (a x y : string) : a +:+ x = a +:+ y -> x = y.
Proof.
  induction a as [|c a IH]; [exact id|].
  cbn [String.append]. intros [= E]. exact (IH E).
Qed.

Lemma nonce_injective (a b : list Z) :
  Forall is_byte a -> Forall is_byte b ->
  generateNonce a = generateNonce b -> a = b.
Proof.
  intros Ha Hb E. rewrite !nonce_as_digits in E.
  apply (f_equal list_ascii_of_string) in E.
  rewrite !list_ascii_of_string_of_list_ascii in E.
  apply map_to_url_injective in E; try apply digits_in_alphabet.
  rewrite !filter_is_strip, (map_as_byte_id a Ha), (map_as_byte_id b Hb) in E.
  destruct (encode_decodes a Ha) as (_ & _ & xs & Hs & Hd & _).
  destruct (encode_decodes b Hb) as (_ & _ & xs' & Hs' & Hd' & _).
  rewrite E, Hs' in Hs. injection Hs as <-. congruence.
Qed.

(** Two draws of bytes have the same nonce only when they are the same
    draw: the text keeps all of the 128 random bits. So two challenges for
    the same parameters are the same text only on the same draw. *)
Theorem generateNonce_injective (a b : list Z) :
  Forall is_byte a -> Forall is_byte b ->
  (generateNonce a = generateNonce b <-> a = b)
  /\ (forall (r : string) (qop algorithm : option string) (stale : bool),
        generateDigestChallenge r qop algorithm stale a
        = generateDigestChallenge r qop algorithm stale b ->
        a = b).
Proof.
  intros Ha Hb. split.
  - split; [apply (nonce_injective a b Ha Hb) | intros ->; reflexivity].
  - intros r qop algorithm stale E. rewrite !challenge_shape in E.
    do 6 apply append_cancel_l in E.
    apply (f_equal until_quote) in E. unfold q in E. cbn [String.append] in E.
    rewrite !until_quote_append in E by apply generateNonce_no_dquote.
    injection E as E. exact (nonce_injective a b Ha Hb E).
Qed.

Lemma generateNonce_injective_witness :
  generateNonce [0; 0; 62] <> generateNonce [0; 0; 63].
Proof.
  intros E.
  apply (proj1 (generateNonce_injective [0; 0; 62] [0; 0; 63]
                  ltac:(repeat constructor; unfold is_byte; lia)
                  ltac:(repeat constructor; unfold is_byte; lia))) in E.
  discriminate E.
Defined.

(** ** The text of a digest *)

Lemma compress_length (P : Sha2.params) (hs block : list Z) :
  length hs = 8%nat -> length (Sha2.compress P hs block) = 8%nat.
Proof.
  intros H. unfold Sha2.compress.
  rewrite length_map, length_combine, H.
  destruct (fold_left (Sha2.round P) _ _) as [[[[[[[a b] c] d] e] f] g] h].
  reflexivity.
Qed.

Lemma hash_words_length (P : Sha2.params) (msg : list Z) :
  length (Sha2.H0 P) = 8%nat -> length (Sha2.hash_words P msg) = 8%nat.
Proof.
  intros H. unfold Sha2.hash_words.
  generalize (Sha2.chunks (Sha2.blockbytes P)
                (length (Sha2.pad P msg) / Sha2.blockbytes P) (Sha2.pad P msg)).
  intros blocks. revert H. generalize (Sha2.H0 P).
  induction blocks as [|b blocks IH]; intros hs H; [exact H|].
  cbn [fold_left]. apply IH, compress_length, H.
Qed.

Lemma Z_to_be_length (n : nat) (x : Z) : length (Sha2.Z_to_be n x) = n.
Proof.
  revert x. induction n as [|n IH]; intros x; [reflexivity|].
  cbn [Sha2.Z_to_be]. rewrite length_app, IH. cbn. lia.
Qed.

Lemma flat_map_length_const {A B} (f : A -> list B) (k : nat) (l : list A) :
  (forall x, length (f x) = k) -> length (flat_map f l) = (length l * k)%nat.
Proof.
  intros H. induction l as [|x l IH]; [reflexivity|].
  cbn [flat_map length]. rewrite length_app, H, IH. lia.
Qed.

Lemma hash_length (P : Sha2.params) (msg : list Z) :
  length (Sha2.H0 P) = 8%nat ->
  length (Sha2.hash P msg) = (8 * Sha2.wbytes P)%nat.
Proof.
  intros H. unfold Sha2.hash.
  rewrite (flat_map_length_const _ (Sha2.wbytes P)) by apply Z_to_be_length.
  rewrite (hash_words_length P msg H). reflexivity.
Qed.

Lemma all_append (p : ascii -> bool) (a b : string) :
  all p (a +:+ b) = all p a && all p b.
Proof.
  induction a as [|x a IH]; [reflexivity|].
  cbn [String.append all]. rewrite IH, andb_assoc. reflexivity.
Qed.

Lemma tohex_text (bs : list Z) :
  Forall is_byte bs ->
  all is_hex (tohex bs) = true
  /\ String.length (tohex bs) = (2 * length bs)%nat.
Proof.
  unfold tohex. induction 1 as [|b bs Hb _ [IH1 IH2]]; [split; reflexivity|].
  pose proof (byte_cases (fun b => all is_hex (hex2 b))
                ltac:(vm_compute; reflexivity) b Hb) as Hh.
  cbn [map String.concat]. destruct (map hex2 bs) as [|h hs] eqn:E.
  - destruct bs; [|discriminate E]. split; [exact Hh | reflexivity].
  - rewrite !all_append, !length_append, Hh, IH1, IH2.
    split; [reflexivity|]. cbn [String.length length hex2]. lia.
Qed.

Lemma take_length (n : nat) (s : string) :
  (n <= String.length s)%nat -> String.length (JS.take n s) = n.
Proof.
  revert s. induction n as [|n IH]; intros s Hs; [reflexivity|].
  destruct s as [|c s]; [cbn in Hs; lia|].
  cbn [JS.take String.length]. rewrite IH; [reflexivity|]. cbn in Hs. lia.
Qed.

Lemma take_all (p : ascii -> bool) (n : nat) (s : string) :
  all p s = true -> all p (JS.take n s) = true.
Proof.
  revert s. induction n as [|n IH]; intros s; [reflexivity|].
  destruct s as [|x s]; [reflexivity|]. cbn [all JS.take].
  intros [Hx Hs]%andb_true_iff. rewrite Hx, (IH s Hs). reflexivity.
Qed.

(** Every digest is lowercase hexadecimal text of a fixed length: 128
    characters from [calculateDigest] for [SHA-512] and 64 for every other
    algorithm name, [MD5] and unknown names included; [md5Hash] gives the
    first 32 characters of the latter. *)
Theorem digest_text_format (algorithm data : string) :
  all is_hex (calculateDigest algorithm data) = true
  /\ String.length (calculateDigest algorithm data)
     = (if String.eqb algorithm "SHA-512" then 128 else 64)%nat
  /\ all is_hex (md5Hash data) = true
  /\ String.length (md5Hash data) = 32%nat
  /\ md5Hash data = JS.take 32 (calculateDigest "MD5" data)
  /\ (algorithm <> "SHA-512" ->
      calculateDigest algorithm data = calculateDigest "SHA-256" data).
Proof.
  destruct (tohex_text _ (hash_bytes Sha2.P256 (JS.encode data))) as [H1 H2].
  destruct (tohex_text _ (hash_bytes Sha2.P512 (JS.encode data))) as [H3 H4].
  rewrite (hash_length Sha2.P256) in H2 by reflexivity.
  rewrite (hash_length Sha2.P512) in H4 by reflexivity.
  change (2 * (8 * Sha2.wbytes Sha2.P256))%nat with 64%nat in H2.
  change (2 * (8 * Sha2.wbytes Sha2.P512))%nat with 128%nat in H4.
  assert (calculateDigest algorithm data
          = if String.eqb algorithm "SHA-512"
            then tohex (Sha2.sha512 (JS.encode data))
            else tohex (Sha2.sha256 (JS.encode data))) as E.
  { unfold calculateDigest.
    destruct (String.eqb_spec algorithm "MD5") as [-> | _]; [reflexivity|].
    destruct (String.eqb_spec algorithm "SHA-256") as [-> | _]; [reflexivity|].
    destruct (String.eqb algorithm "SHA-512"); reflexivity. }
  rewrite E. unfold md5Hash, Sha2.sha256, Sha2.sha512.
  repeat split.
  - destruct (String.eqb algorithm "SHA-512"); assumption.
  - destruct (String.eqb algorithm "SHA-512"); assumption.
  - apply take_all, H1.
  - apply take_length. rewrite H2. lia.
  - intros Hne. apply String.eqb_neq in Hne. rewrite Hne. reflexivity.
Qed.

Lemma digest_text_format_witness :
  calculateDigest "ROT13" "abc" = calculateDigest "SHA-256" "abc".
Proof.
  apply (proj2 (proj2 (proj2 (proj2 (proj2 (digest_text_format "ROT13" "abc")))))).
  discriminate.
Defined.

(** ** Basic: a credential without a colon in its parts *)

(** For a user name and a password sent without a colon in either, encoded
    as [btoa] does, the route answers 200 exactly when they are the pair of
    the route, and otherwise 401 with the Basic challenge; a missing header
    or another scheme is answered the same 401. *)
Theorem basic_auth_decides_sent_pair (user passwd sentUser sentPasswd path
  : string) (req : Request) :
  (absent ":"%char sentUser = true -> absent ":"%char sentPasswd = true ->
   basic_auth user passwd
     (get path
        (Some ("Basic " +:+ Base64.btoa (sentUser +:+ ":" +:+ sentPasswd))))
   = if bool_decide (sentUser = user /\ sentPasswd = passwd)
     then Respond (authenticated_user user)
     else Respond (unauthorized basic_challenge))
  /\ ((authorization req = None
       \/ exists h, authorization req = Some h
                    /\ JS.startsWith "Basic " h = false) ->
      basic_auth user passwd req = Respond (unauthorized basic_challenge)).
Proof.
  split.
  - intros Hu Hp. unfold basic_auth, get. cbn [authorization].
    change (JS.falsy (Some ("Basic " +:+ ?x))) with false.
    change (JS.startsWith "Basic " ("Basic " +:+ ?x)) with true.
    cbn [negb orb].
    change (JS.substring 6 ("Basic " +:+ ?x)) with x.
    rewrite atob_btoa.
    change (sentUser +:+ ":" +:+ sentPasswd)
      with (sentUser +:+ String ":"%char sentPasswd).
    rewrite (split_first ":"%char sentUser sentPasswd Hu),
      (split_absent _ sentPasswd Hp).
    cbn [nth_error].
    destruct (decide (sentUser = user)) as [-> | Hne1].
    + rewrite bool_decide_eq_true_2 by reflexivity. cbn [negb orb].
      destruct (decide (sentPasswd = passwd)) as [-> | Hne2].
      * rewrite !bool_decide_eq_true_2 by auto. reflexivity.
      * rewrite !bool_decide_eq_false_2 by (try intros [_ ?]; congruence).
        reflexivity.
    + rewrite (bool_decide_eq_false_2 (Some sentUser = Some user))
        by congruence.
      rewrite (bool_decide_eq_false_2 (sentUser = user /\ _))
        by (intros [? _]; congruence).
      reflexivity.
  - unfold basic_auth. intros [-> | (h & -> & Hs)]; [reflexivity|].
    rewrite Hs, orb_true_r. reflexivity.
Qed.

Lemma basic_auth_decides_sent_pair_witness :
  basic_auth "foo" "bar"
    (get "/basic-auth/foo/bar" (Some ("Basic " +:+ Base64.btoa "wrong:password")))
  = Respond (unauthorized basic_challenge).
Proof.
  exact (proj1 (basic_auth_decides_sent_pair "foo" "bar" "wrong" "password"
                  "/basic-auth/foo/bar" (get "/" None)) eq_refl eq_refl).
Defined.

(** ** The parser on an unterminated quote *)




(** ** The image routes *)

Lemma toLowerCase_append (a b : string) :
  Images.toLowerCase (a +:+ b) = Images.toLowerCase a +:+ Images.toLowerCase b.
Proof.
  induction a as [|c a IH]; [reflexivity|].
  cbn [String.append Images.toLowerCase]. rewrite IH. reflexivity.
Qed.

Lemma startsWith_append (p s : string) : JS.startsWith p (p +:+ s) = true.
Proof.
  induction p as [|c p IH]; [reflexivity|].
  cbn [String.append JS.startsWith]. rewrite Ascii.eqb_refl, IH. reflexivity.
Qed.

Lemma includes_here (p s : string) :
  JS.startsWith p s = true -> JS.includes p s = true.
Proof. intros H. destruct s; cbn [JS.includes]; rewrite H; reflexivity. Qed.

Lemma includes_middle (p a b : string) : JS.includes p (a +:+ p +:+ b) = true.
Proof. apply includes_append_r, includes_here, startsWith_append. Qed.

Lemma startsWith_shorter (p t s : string) :
  JS.startsWith (p +:+ t) s = true -> JS.startsWith p s = true.
Proof.
  revert s. induction p as [|c p IH]; intros s; [reflexivity|].
  destruct s as [|x s]; cbn [String.append JS.startsWith]; [discriminate|].
  intros [Hc Hs]%andb_true_iff. rewrite Hc, (IH s Hs). reflexivity.
Qed.

Lemma includes_shorter (p t s : string) :
  JS.includes (p +:+ t) s = true -> JS.includes p s = true.
Proof.
  induction s as [|x s IH]; cbn [JS.includes].
  - rewrite orb_false_r. intros H.
    rewrite (startsWith_shorter p t "" H). reflexivity.
  - intros [H | H]%orb_true_iff.
    + rewrite (startsWith_shorter p t _ H). reflexivity.
    + rewrite (IH H), orb_true_r. reflexivity.
Qed.

Lemma accept_text (acceptHeader : option string) :
  default "" (JS.or_else (option_map Images.toLowerCase acceptHeader) (Some ""))
  = match acceptHeader with
    | Some h => Images.toLowerCase h
    | None => ""
    end.
Proof.
  destruct acceptHeader as [h|]; [|reflexivity].
  cbn [option_map]. unfold JS.or_else, JS.falsy.
  destruct (String.eqb_spec (Images.toLowerCase h) "") as [-> | _]; reflexivity.
Qed.

Section ImageRoutes.
Variable RawRequest : Type.
Variable fetch : string -> RawRequest -> Images.Asset.

(** The handler of [GET /image] on the lowercase text of the header. *)
Lemma image_on_text (raw : RawRequest) (acceptHeader : option string) :
  Images.image RawRequest fetch raw acceptHeader
  = let accept := match acceptHeader with
                  | Some h => Images.toLowerCase h
                  | None => ""
                  end in
    if String.eqb accept "" then Images.serveImage RawRequest fetch raw Images.png
    else if JS.includes "image/webp" accept
    then Images.serveImage RawRequest fetch raw Images.webp
    else if JS.includes "image/svg+xml" accept
    then Images.serveImage RawRequest fetch raw Images.svg
    else if JS.includes "image/jpeg" accept
    then Images.serveImage RawRequest fetch raw Images.jpeg
    else if JS.includes "image/png" accept || JS.includes "image/*" accept
    then Images.serveImage RawRequest fetch raw Images.png
    else Images.c_text "Unsupported media type" 406.
Proof. unfold Images.image. rewrite accept_text. reflexivity. Qed.

(** [GET /image] chooses by what the [Accept] header contains, not by
    what it prefers: without a header, or with an empty one, it serves the
    PNG as [/image/png] does; a header that contains [image/webp] in any
    letter case is served the WebP whatever else it lists; and a non-empty
    header without [image/] in it, [*/*] among them, is answered 406 with no
    asset fetched. *)
Theorem image_chooses_by_containment (raw : RawRequest) :
  Images.image RawRequest fetch raw None = Images.image_png RawRequest fetch raw
  /\ Images.image RawRequest fetch raw (Some "")
     = Images.image_png RawRequest fetch raw
  /\ (forall a w b,
        Images.toLowerCase w = "image/webp" ->
        Images.image RawRequest fetch raw (Some (a +:+ w +:+ b))
        = Images.image_webp RawRequest fetch raw)
  /\ (forall h,
        h <> "" -> JS.includes "image/" (Images.toLowerCase h) = false ->
        Images.image RawRequest fetch raw (Some h)
        = Images.c_text "Unsupported media type" 406).
Proof.
  split; [reflexivity|]. split; [reflexivity|]. split.
  - intros a w b Hw. rewrite image_on_text. cbv zeta.
    rewrite !toLowerCase_append, Hw.
    pose proof (includes_middle "image/webp" (Images.toLowerCase a)
                  (Images.toLowerCase b)) as Hi.
    destruct (String.eqb_spec
                (Images.toLowerCase a +:+ "image/webp" +:+ Images.toLowerCase b)
                "") as [E | _].
    + rewrite E in Hi. discriminate Hi.
    + rewrite Hi. reflexivity.
  - intros h Hh Hno. rewrite image_on_text. cbv zeta.
    destruct (String.eqb_spec (Images.toLowerCase h) "") as [E | _].
    { destruct h; [contradiction | discriminate E]. }
    assert (forall t, JS.includes ("image/" +:+ t) (Images.toLowerCase h) = false)
      as Hn.
    { intros t. destruct (JS.includes ("image/" +:+ t) _) eqn:E; [|reflexivity].
      apply includes_shorter in E. congruence. }
    pose proof (Hn "webp") as H1. pose proof (Hn "svg+xml") as H2.
    pose proof (Hn "jpeg") as H3. pose proof (Hn "png") as H4.
    pose proof (Hn "*") as H5. cbn [String.append] in H1, H2, H3, H4, H5.
    rewrite H1, H2, H3, H4, H5. reflexivity.
Qed.

(** An image route answers 200 with the type of its format and the bytes of
    the asset whenever the store answers anything but 404, whatever the
    status of the store, and 404 [Image not found] otherwise; so [GET /image]
    answers nothing but 200, 404 and 406, and a 200 of it has one of the four
    image types. *)
Theorem image_statuses (raw : RawRequest) (format : Images.ImageFormat)
  (acceptHeader : option string) :
  (Images.asset_status (fetch (Images.path (Images.IMAGE_CONFIG format)) raw)
   <> 404 ->
   Images.serveImage RawRequest fetch raw format
   = {| Images.image_status := 200;
        Images.image_type :=
          Some (Images.contentType (Images.IMAGE_CONFIG format));
        Images.image_body :=
          Images.Bytes
            (Images.asset_body
               (fetch (Images.path (Images.IMAGE_CONFIG format)) raw)) |})
  /\ (Images.asset_status (fetch (Images.path (Images.IMAGE_CONFIG format)) raw)
      = 404 ->
      Images.serveImage RawRequest fetch raw format
      = Images.c_text "Image not found" 404)
  /\ (let r := Images.image RawRequest fetch raw acceptHeader in
      (Images.image_status r = 200
       /\ exists f, Images.image_type r
                    = Some (Images.contentType (Images.IMAGE_CONFIG f)))
      \/ (Images.image_status r = 404 /\ Images.image_type r = None)
      \/ (Images.image_status r = 406 /\ Images.image_type r = None)).
Proof.
  assert (forall f,
    let r := Images.serveImage RawRequest fetch raw f in
    (Images.image_status r = 200
     /\ exists f', Images.image_type r
                   = Some (Images.contentType (Images.IMAGE_CONFIG f')))
    \/ (Images.image_status r = 404 /\ Images.image_type r = None)
    \/ (Images.image_status r = 406 /\ Images.image_type r = None)) as Hs.
  { intros f. unfold Images.serveImage.
    destruct (_ =? 404); [right; left; split; reflexivity|].
    left. split; [reflexivity|]. exists f. reflexivity. }
  split; [|split].
  - intros H. unfold Images.serveImage. apply Z.eqb_neq in H. rewrite H.
    reflexivity.
  - intros H. unfold Images.serveImage. rewrite H. reflexivity.
  - rewrite image_on_text. cbv zeta.
    repeat match goal with
           | |- context [if ?b then _ else _] => destruct b
           end; try apply Hs.
    right. right. split; reflexivity.
Qed.

End ImageRoutes.

Lemma image_chooses_by_containment_witness :
  Images.image unit sample_store tt (Some "image/png, IMAGE/WebP;q=0")
  = Images.image_webp unit sample_store tt
  /\ Images.image unit sample_store tt (Some "*/*")
     = Images.c_text "Unsupported media type" 406.
Proof.
  destruct (image_chooses_by_containment unit sample_store tt)
    as (_ & _ & Hw & Hn).
  split.
  - exact (Hw "image/png, " "IMAGE/WebP" ";q=0" eq_refl).
  - exact (Hn "*/*" ltac:(discriminate) eq_refl).
Defined.

Lemma image_statuses_witness :
  Images.image_status (Images.serveImage unit sample_store tt Images.webp) = 200
  /\ Images.serveImage unit sample_store tt Images.png
     = Images.c_text "Image not found" 404.
Proof.
  destruct (image_statuses unit sample_store tt Images.webp None) as (H1 & _).
  destruct (image_statuses unit sample_store tt Images.png None) as (_ & H2 & _).
  split.
  - rewrite H1 by (vm_compute; discriminate). reflexivity.
  - apply H2. reflexivity.
Defined.
